(** * Market analysis competitor comparison (app_1509_2.py)

    A shallow embedding of the Streamlit script: the loaded table, the
    column resolver [get_col], the global and per-competitor filter cascade,
    the row choice, the comparison table with [get_val] and the CSV export
    frame.  Widgets are modelled by what they return: a [selectbox] returns
    one of its options, picked by an index supplied by the user. *)

From Stdlib Require Import List String Ascii ZArith Bool Arith Lia.
From Stdlib Require Import DecimalString Sorted.
Import ListNotations.
Open Scope string_scope.

(** ** Exceptions *)

(** The two exceptions the script can meet after loading: a lookup of a
    column that is not there, and [sorted] over numbers mixed with strings. *)
Inductive exn : Type := KeyError | TypeError.

Inductive res (A : Type) : Type :=
| Ok (a : A)
| Raise (e : exn).
Arguments Ok {A} a.
Arguments Raise {A} e.

Definition bind {A B : Type} (m : res A) (k : A -> res B) : res B :=
  match m with
  | Ok a => k a
  | Raise e => Raise e
  end.

Notation "x <- m ;; k" := (bind m (fun x => k))
  (at level 61, m at next level, right associativity).

(** ** Cells and tables *)

(** A cell value is text or a number (numbers are taken to be integers, as
    the Year and Price columns of the data set are).  The widget
    placeholders "(all)", "(choose)", "(any)" and the sentinel "-" are
    ordinary strings of this type, exactly as in the script. *)
Inductive value : Type :=
| VStr (s : string)
| VNum (n : Z).

(** [None] is pandas' missing cell (NaN). *)
Definition cell : Type := option value.

(** A DataFrame: the column names and the rows in table order; a row lists
    its cells in column order. *)
Record DataFrame : Type := mkDF {
  columns : list string;
  rows : list (list cell)
}.

(** [pd.DataFrame()] *)
Definition empty_frame : DataFrame := mkDF [] [].

(** [df.empty]: some axis has length zero. *)
Definition empty (df : DataFrame) : bool :=
  match columns df, rows df with
  | [], _ => true
  | _, [] => true
  | _, _ => false
  end.

Definition value_eqb (a b : value) : bool :=
  match a, b with
  | VStr s, VStr t => String.eqb s t
  | VNum n, VNum m => Z.eqb n m
  | _, _ => false
  end.

(** Elementwise [==] of a column against a scalar: a missing cell equals
    nothing. *)
Definition cell_eqb (c : cell) (v : value) : bool :=
  match c with
  | Some a => value_eqb a v
  | None => false
  end.

(** [c in df.columns] *)
Definition has_col (cols : list string) (c : string) : bool :=
  existsb (String.eqb c) cols.

(** Position of a column name ([columns.get_loc]). *)
Fixpoint index_of (c : string) (cols : list string) : option nat :=
  match cols with
  | [] => None
  | x :: xs => if String.eqb c x then Some 0
               else option_map S (index_of c xs)
  end.

(** The cell of a row at a column position; rows shorter than the header
    are padded with missing cells, as the loaders do. *)
Definition cell_at (j : nat) (r : list cell) : cell := nth j r None.

(** [df[c]]: the column as a list of cells, [KeyError] when absent. *)
Definition column (df : DataFrame) (c : string) : res (list cell) :=
  match index_of c (columns df) with
  | Some j => Ok (map (cell_at j) (rows df))
  | None => Raise KeyError
  end.

(** ** Column resolver *)

(** [get_col(df, options)] *)
Fixpoint get_col (cols : list string) (options : list string) : option string :=
  match options with
  | [] => None
  | o :: rest => if has_col cols o then Some o else get_col cols rest
  end.

(** The accepted spellings of each role, in priority order. *)
Inductive role : Type :=
| Quarter | Year | Region | Country | CountryFlagAsset | Brand | BrandLogoAsset.

Definition variants (r : role) : list string :=
  match r with
  | Quarter => ["Quarter"; "quarter"]
  | Year => ["Year"; "year"]
  | Region => ["Region"; "region"]
  | Country => ["Country"; "country"]
  | CountryFlagAsset => ["Country Flag"; "Country_Flag"; "country_flag"; "CountryFlag"]
  | Brand => ["Brand name"; "Brand"; "brand name"; "brand"]
  | BrandLogoAsset => ["Brand logo"; "Brand_logo"; "brand_logo"; "BrandLogo"]
  end.

Definition resolve (cols : list string) (r : role) : option string :=
  get_col cols (variants r).

Definition col_quarter (cols : list string) := resolve cols Quarter.
Definition col_year (cols : list string) := resolve cols Year.
Definition col_region (cols : list string) := resolve cols Region.
Definition col_country (cols : list string) := resolve cols Country.
Definition col_country_flag (cols : list string) := resolve cols CountryFlagAsset.
Definition col_brand (cols : list string) := resolve cols Brand.
Definition col_brand_logo (cols : list string) := resolve cols BrandLogoAsset.

Definition preserve_cols (cols : list string) : list (option string) :=
  [col_quarter cols; col_year cols; col_region cols; col_country cols;
   col_country_flag cols; col_brand cols; col_brand_logo cols].

Definition opt_string_eqb (a b : option string) : bool :=
  match a, b with
  | Some s, Some t => String.eqb s t
  | None, None => true
  | _, _ => false
  end.

(** [[c for c in df.columns if c not in preserve_cols]] *)
Definition remaining_cols (cols : list string) : list string :=
  filter (fun c => negb (existsb (opt_string_eqb (Some c)) (preserve_cols cols))) cols.

(** ** Option lists *)

(** [Series.dropna()] *)
Fixpoint dropna (s : list cell) : list value :=
  match s with
  | [] => []
  | Some v :: t => v :: dropna t
  | None :: t => dropna t
  end.

(** [Series.unique()]: distinct values in order of first appearance. *)
Fixpoint unique_acc (seen : list value) (s : list value) : list value :=
  match s with
  | [] => []
  | v :: t => if existsb (value_eqb v) seen then unique_acc seen t
              else v :: unique_acc (v :: seen) t
  end.

Definition unique (s : list value) : list value := unique_acc [] s.

(** Python's [<=] inside one kind: numbers by size, strings by code point. *)
Definition value_leb (a b : value) : bool :=
  match a, b with
  | VStr s, VStr t => String.leb s t
  | VNum n, VNum m => Z.leb n m
  | VNum _, VStr _ => true
  | VStr _, VNum _ => false
  end.

Definition same_kind (a b : value) : bool :=
  match a, b with
  | VStr _, VStr _ => true
  | VNum _, VNum _ => true
  | _, _ => false
  end.

Definition homogeneous (l : list value) : bool :=
  match l with
  | [] => true
  | a :: t => forallb (same_kind a) t
  end.

Fixpoint insert_sorted (v : value) (l : list value) : list value :=
  match l with
  | [] => [v]
  | x :: t => if value_leb v x then v :: x :: t else x :: insert_sorted v t
  end.

Fixpoint sort_values (l : list value) : list value :=
  match l with
  | [] => []
  | v :: t => insert_sorted v (sort_values t)
  end.

(** [sorted(...)]: comparing a number with a string raises [TypeError]. *)
Definition sorted (l : list value) : res (list value) :=
  if homogeneous l then Ok (sort_values l) else Raise TypeError.

(** [sorted(df[c].dropna().unique())] *)
Definition sorted_unique (df : DataFrame) (c : string) : res (list value) :=
  s <- column df c ;;
  sorted (unique (dropna s)).

(** [sorted(df[col].dropna().unique()) if col else []].  Every accepted
    spelling is a non-empty string, so the truth test on [col] is the test
    for [None]. *)
Definition uniques (df : DataFrame) (col : option string) : res (list value) :=
  match col with
  | Some c => sorted_unique df c
  | None => Ok []
  end.

(** [df[df[col] == v]]: the rows whose cell in that column equals [v], in
    table order; indexing by an unresolved column is a [KeyError]. *)
Definition filter_eq (df : DataFrame) (col : option string) (v : value) : res DataFrame :=
  match col with
  | Some c =>
      match index_of c (columns df) with
      | Some j => Ok (mkDF (columns df)
                           (filter (fun r => cell_eqb (cell_at j r) v) (rows df)))
      | None => Raise KeyError
      end
  | None => Raise KeyError
  end.

(** ** Widgets *)

(** [st.selectbox]: returns the option the user picked; a pick outside the
    list falls back to the first option (the default [index=0]). *)
Definition selectbox (options : list value) (pick : nat) : value :=
  match nth_error options pick with
  | Some v => v
  | None => hd (VStr "") options
  end.

(** [st.slider(min_value=2, max_value=10)] *)
Definition slider (lo hi pick : nat) : nat := Nat.max lo (Nat.min hi pick).

Definition ALL : value := VStr "(all)".
Definition CHOOSE : value := VStr "(choose)".
Definition ANY : value := VStr "(any)".
Definition DASH : value := VStr "-".

(** [str(v)] as used by the f-strings. *)
Definition show_value (v : value) : string :=
  match v with
  | VStr s => s
  | VNum n => NilZero.string_of_int (Z.to_int n)
  end.

Definition show_nat (n : nat) : string := show_value (VNum (Z.of_nat n)).

(** The repeated step [if sel != placeholder: df = df[df[col] == sel]]. *)
Definition narrow (df : DataFrame) (col : option string) (placeholder sel : value)
  : res DataFrame :=
  if negb (value_eqb sel placeholder) then filter_eq df col sel else Ok df.

(** ** Sidebar: global filters (script lines 57-80) *)

Record global_picks : Type := mkGlobalPicks {
  pick_global_year : nat;
  pick_global_quarter : nat;
  pick_global_region : nat
}.

(** What the global part of the sidebar offers and returns; [narrowed] is
    [df] after the three steps, [unique_countries] its last value. *)
Record global_view : Type := mkGlobalView {
  year_options : list value;
  global_year : value;
  quarter_options : list value;
  global_quarter : value;
  region_options : list value;
  global_region : value;
  unique_countries : list value;
  narrowed : DataFrame
}.

Definition global_filters (df : DataFrame) (p : global_picks) : res global_view :=
  let cols := columns df in
  unique_years <- uniques df (col_year cols) ;;
  unique_quarters <- uniques df (col_quarter cols) ;;
  unique_regions <- uniques df (col_region cols) ;;
  unique_countries <- uniques df (col_country cols) ;;
  let year_options := ALL :: unique_years in
  let global_year := selectbox year_options (pick_global_year p) in
  st1 <- (if negb (value_eqb global_year ALL) then
            df1 <- filter_eq df (col_year cols) global_year ;;
            q <- uniques df1 (col_quarter cols) ;;
            r <- uniques df1 (col_region cols) ;;
            c <- uniques df1 (col_country cols) ;;
            Ok (df1, q, r, c)
          else Ok (df, unique_quarters, unique_regions, unique_countries)) ;;
  let '(df1, unique_quarters, unique_regions, unique_countries) := st1 in
  let quarter_options := ALL :: unique_quarters in
  let global_quarter := selectbox quarter_options (pick_global_quarter p) in
  st2 <- (if negb (value_eqb global_quarter ALL) then
            df2 <- filter_eq df1 (col_quarter cols) global_quarter ;;
            r <- uniques df2 (col_region cols) ;;
            c <- uniques df2 (col_country cols) ;;
            Ok (df2, r, c)
          else Ok (df1, unique_regions, unique_countries)) ;;
  let '(df2, unique_regions, unique_countries) := st2 in
  let region_options := ALL :: unique_regions in
  let global_region := selectbox region_options (pick_global_region p) in
  st3 <- (if negb (value_eqb global_region ALL) then
            df3 <- filter_eq df2 (col_region cols) global_region ;;
            c <- uniques df3 (col_country cols) ;;
            Ok (df3, c)
          else Ok (df2, unique_countries)) ;;
  let '(df3, unique_countries) := st3 in
  Ok (mkGlobalView year_options global_year quarter_options global_quarter
        region_options global_region unique_countries df3).

(** ** Sidebar: one competitor slot (script lines 86-127) *)

Record slot_picks : Type := mkSlotPicks {
  pick_country : nat;
  pick_brand : nat;
  pick_year : nat;
  pick_quarter : nat
}.

(** The dictionary appended to [selections]; [year] and [quarter] stay
    [None] when the table has no such column. *)
Record selection : Type := mkSelection {
  country : value;
  brand : value;
  year : option value;
  quarter : option value;
  row : DataFrame
}.

(** The option lists a slot offered, with the selection it produced. *)
Record slot_view : Type := mkSlotView {
  country_opts : list value;
  brand_opts : list value;
  year_opts : option (list value);
  q_opts : option (list value);
  chosen : selection
}.

(** [subset.iloc[[0]]] *)
Definition iloc0 (df : DataFrame) : DataFrame :=
  mkDF (columns df) (firstn 1 (rows df)).

(** Script lines 115-119. *)
Definition chosen_row (cols : list string) (df_for_brand : DataFrame) (sel_brand : value)
  : res DataFrame :=
  if negb (value_eqb sel_brand CHOOSE) then
    subset <- filter_eq df_for_brand (col_brand cols) sel_brand ;;
    Ok (if negb (empty subset) then iloc0 subset else empty_frame)
  else Ok empty_frame.

(** The block the loop body runs for Year (lines 103-107) and again for
    Quarter (lines 108-112): when the role is resolved, offer "(any)" and
    the column's values, and narrow by a concrete selection; otherwise show
    no widget and leave the selection [None]. *)
Definition any_filter (col : option string) (df_for_brand : DataFrame) (pick : nat)
  : res (option (list value) * option value * DataFrame) :=
  match col with
  | Some c =>
      vs <- sorted_unique df_for_brand c ;;
      let opts := ANY :: vs in
      let sel := selectbox opts pick in
      d <- narrow df_for_brand col ANY sel ;;
      Ok (Some opts, Some sel, d)
  | None => Ok (None, None, df_for_brand)
  end.

(** One pass of the loop body; [df] is the globally narrowed table and
    [cols] the header the roles were resolved on. *)
Definition competitor (cols : list string) (df : DataFrame) (p : slot_picks)
  : res slot_view :=
  cs <- uniques df (col_country cols) ;;
  let country_opts := CHOOSE :: cs in
  let sel_country := selectbox country_opts (pick_country p) in
  df_for_brand <- narrow df (col_country cols) CHOOSE sel_country ;;
  bs <- uniques df_for_brand (col_brand cols) ;;
  let brand_opts := CHOOSE :: bs in
  let sel_brand := selectbox brand_opts (pick_brand p) in
  sty <- any_filter (col_year cols) df_for_brand (pick_year p) ;;
  let '(year_opts, sel_year, df_for_brand) := sty in
  stq <- any_filter (col_quarter cols) df_for_brand (pick_quarter p) ;;
  let '(q_opts, sel_quarter, df_for_brand) := stq in
  r <- chosen_row cols df_for_brand sel_brand ;;
  Ok (mkSlotView country_opts brand_opts year_opts q_opts
        (mkSelection sel_country sel_brand sel_year sel_quarter r)).

(** [for i in range(num_comp)]: the slots in order, stopping at the first
    exception. *)
Fixpoint competitors (cols : list string) (df : DataFrame)
    (picks : nat -> slot_picks) (i n : nat) : res (list slot_view) :=
  match n with
  | O => Ok []
  | S n' =>
      v <- competitor cols df (picks i) ;;
      vs <- competitors cols df picks (S i) n' ;;
      Ok (v :: vs)
  end.

(** ** Main area (script lines 131-233) *)

(** What one column of the page shows. *)
Inductive widget : Type :=
| Markdown (s : string)
| Write (v : value)
| ShowImage (path : string).

(** [[s for s in selections if not s['row'].empty]] *)
Definition valid_rows (selections : list selection) : list selection :=
  filter (fun s => negb (empty (row s))) selections.

Definition WARNING : string :=
  "Please select at least two competitors (Country + Brand) to compare.".

(** [get_val(s, col_name)] *)
Definition get_val (s : selection) (col_name : string) : value :=
  let row := row s in
  if empty row || negb (has_col (columns row) col_name) then DASH
  else
    match index_of col_name (columns row) with
    | Some j =>
        match cell_at j (hd [] (rows row)) with
        | Some v => v
        | None => DASH
        end
    | None => DASH
    end.

(** [ordered_params] *)
Definition ordered_params (cols : list string) : list (string * string) :=
  (match col_country cols with Some c => [(c, "Country")] | None => [] end)
  ++ (match col_country_flag cols with Some c => [(c, "Country Flag")] | None => [] end)
  ++ (match col_brand cols with Some c => [(c, "Brand")] | None => [] end)
  ++ (match col_brand_logo cols with Some c => [(c, "Brand logo")] | None => [] end)
  ++ map (fun c => (c, c)) (remaining_cols cols).

Section Rendering.

(** The asset store: whether [Image.open] succeeds on a path. *)
Variable image_opens : string -> bool.

(** [s['row'].iat[0, s['row'].columns.get_loc(col)]] *)
Definition iat0 (row : DataFrame) (col : string) : res cell :=
  match index_of col (columns row) with
  | Some j => Ok (cell_at j (hd [] (rows row)))
  | None => Raise KeyError
  end.

(** The picture part of a header column: nothing unless the row is
    matched, the role resolved and the cell not missing. *)
Definition header_image (s : selection) (col : option string) (fallback : string)
  : res (list widget) :=
  if empty (row s) then Ok []
  else match col with
       | None => Ok []
       | Some c =>
           v <- iat0 (row s) c ;;
           match v with
           | None => Ok []
           | Some path =>
               let file := "images/" ++ show_value path in
               Ok [if image_opens file then ShowImage file
                   else Write (VStr fallback)]
           end
       end.

(** Script lines 141-161 for one selection. *)
Definition header (cols : list string) (s : selection) : res (list widget) :=
  let title := if negb (value_eqb (brand s) CHOOSE)
               then [Markdown ("**" ++ show_value (brand s) ++ "**")] else [] in
  logo <- header_image s (col_brand_logo cols) "(logo not found)" ;;
  flag <- (if negb (value_eqb (country s) CHOOSE) then
             f <- header_image s (col_country_flag cols) "(flag not found)" ;;
             Ok (Write (country s) :: f)
           else Ok []) ;;
  Ok (title ++ logo ++ flag)%list.

(** Script lines 208-220: the cell of one competitor in one table row. *)
Definition render_cell (cols : list string) (s : selection) (col_name : string)
  : widget :=
  if opt_string_eqb (Some col_name) (col_country_flag cols)
     || opt_string_eqb (Some col_name) (col_brand_logo cols)
  then
    let val := get_val s col_name in
    if negb (value_eqb val DASH) then
      let file := "images/" ++ show_value val in
      if image_opens file then ShowImage file else Write val
    else Write DASH
  else Write (get_val s col_name).

(** One table row: the display name and a cell per selection. *)
Definition render_rows (cols : list string) (selections : list selection)
  : list (string * list widget) :=
  map (fun p => (snd p, map (fun s => render_cell cols s (fst p)) selections))
      (ordered_params cols).

End Rendering.

(** Column captions of the table, script lines 169-172. *)
Fixpoint table_names (i : nat) (selections : list selection) : list string :=
  match selections with
  | [] => []
  | s :: rest =>
      (if negb (value_eqb (brand s) CHOOSE) then show_value (brand s)
       else "Competitor " ++ show_nat (i + 1))
      :: table_names (S i) rest
  end.

(** The exporter's label of slot [i] (counted from 0). *)
Definition label (i : nat) (s : selection) : string :=
  if negb (value_eqb (brand s) CHOOSE) then show_value (brand s)
  else "Competitor_" ++ show_nat (i + 1).

(** [row_flat]: the row with every column renamed to [f"{label} - {c}"]. *)
Definition row_flat (i : nat) (s : selection) : DataFrame :=
  mkDF (map (fun c => label i s ++ " - " ++ c) (columns (row s))) (rows (row s)).

(** [pd.concat([a, b], axis=1)] for frames of at most one row, as here:
    the headers side by side and the single rows joined. *)
Definition concat_cols (a b : DataFrame) : DataFrame :=
  if empty a then b
  else mkDF (columns a ++ columns b) [(hd [] (rows a) ++ hd [] (rows b))%list].

(** Script lines 224-230, from slot [i] on. *)
Fixpoint export_from (i : nat) (selections : list selection) (acc : DataFrame)
  : DataFrame :=
  match selections with
  | [] => acc
  | s :: rest =>
      export_from (S i) rest
        (if negb (empty (row s)) then concat_cols acc (row_flat i s) else acc)
  end.

Definition export_df (selections : list selection) : DataFrame :=
  export_from 0 selections empty_frame.

(** ** The script *)

Record user_input : Type := mkInput {
  pick_num_comp : nat;
  pick_global : global_picks;
  pick_slot : nat -> slot_picks
}.

Record comparison : Type := mkComparison {
  headers : list (list widget);
  names : list string;
  table : list (string * list widget);
  export : DataFrame
}.

(** The main area either stops at the warning or carries the comparison
    with its download. *)
Inductive main_area : Type :=
| Warned (msg : string)
| Compared (c : comparison).

Record page : Type := mkPage {
  sidebar_global : global_view;
  sidebar_slots : list slot_view;
  main : main_area
}.

(** A run on an empty table stops before drawing anything. *)
Inductive outcome : Type :=
| NoData
| Page (p : page).

Fixpoint map_res {A B : Type} (f : A -> res B) (l : list A) : res (list B) :=
  match l with
  | [] => Ok []
  | a :: t => b <- f a ;; bs <- map_res f t ;; Ok (b :: bs)
  end.

Definition app (image_opens : string -> bool) (df : DataFrame) (u : user_input)
  : res outcome :=
  if empty df then Ok NoData
  else
    let cols := columns df in
    let num_comp := slider 2 10 (pick_num_comp u) in
    g <- global_filters df (pick_global u) ;;
    views <- competitors cols (narrowed g) (pick_slot u) 0 num_comp ;;
    let selections := map chosen views in
    if Nat.ltb (List.length (valid_rows selections)) 2 then
      Ok (Page (mkPage g views (Warned WARNING)))
    else
      hs <- map_res (header image_opens cols) selections ;;
      Ok (Page (mkPage g views
                  (Compared (mkComparison hs (table_names 0 selections)
                               (render_rows image_opens cols selections)
                               (export_df selections))))).

(** ** Row predicates of the cascade *)

(** The rows one step of the cascade keeps: every row when the widget is
    left on its placeholder, else the rows whose cell in the step's column
    equals the selection. *)
Definition keeps (cols : list string) (col : option string) (placeholder sel : value)
    (r : list cell) : bool :=
  if value_eqb sel placeholder then true
  else match col with
       | Some c =>
           match index_of c cols with
           | Some j => cell_eqb (cell_at j r) sel
           | None => false
           end
       | None => false
       end.

(** A per-competitor Year or Quarter selection read as a value: the
    placeholder when the table has no such column and no widget is shown. *)
Definition sel_or (placeholder : value) (o : option value) : value :=
  match o with
  | Some v => v
  | None => placeholder
  end.

(** The rows the three global steps keep. *)
Definition global_keeps (cols : list string) (g : global_view) (r : list cell) : bool :=
  keeps cols (col_year cols) ALL (global_year g) r
  && keeps cols (col_quarter cols) ALL (global_quarter g) r
  && keeps cols (col_region cols) ALL (global_region g) r.

(** The rows a slot's four selections keep, each selection left on its
    placeholder keeping every row. *)
Definition slot_keeps (cols : list string) (s : selection) (r : list cell) : bool :=
  keeps cols (col_country cols) CHOOSE (country s) r
  && keeps cols (col_brand cols) CHOOSE (brand s) r
  && keeps cols (col_year cols) ANY (sel_or ANY (year s)) r
  && keeps cols (col_quarter cols) ANY (sel_or ANY (quarter s)) r.

(** [df[col].dropna().unique()]: the values a table view holds in a
    column, before sorting; none for an unresolved role. *)
Definition available (df : DataFrame) (col : option string) : list value :=
  match col with
  | Some c =>
      match index_of c (columns df) with
      | Some j => unique (dropna (map (cell_at j) (rows df)))
      | None => []
      end
  | None => []
  end.

(** The columns a list of roles resolved to, in the order of the roles;
    an unresolved role contributes nothing. *)
Definition resolved (cols : list string) (rs : list role) : list string :=
  flat_map (fun r => match resolve cols r with
                     | Some c => [c]
                     | None => []
                     end) rs.

Definition leading_roles : list role :=
  [Country; CountryFlagAsset; Brand; BrandLogoAsset].

Definition all_roles : list role :=
  [Quarter; Year; Region; Country; CountryFlagAsset; Brand; BrandLogoAsset].

(** A table is well typed when no column mixes numbers with strings
    (missing cells aside), which is what the loaders produce for a typed
    column. *)
Definition well_typed (df : DataFrame) : bool :=
  forallb (fun j => homogeneous (dropna (map (cell_at j) (rows df))))
          (seq 0 (List.length (columns df))).

(** ** A small table to run the script on *)

(** Three rows: one brand in two years and a second brand in one. *)
Definition sample : DataFrame :=
  mkDF ["Country"; "Brand"; "Year"; "Price"]
    [ [Some (VStr "USA"); Some (VStr "Acme"); Some (VNum 2023); Some (VNum 10)];
      [Some (VStr "USA"); Some (VStr "Acme"); Some (VNum 2024); Some (VNum 12)];
      [Some (VStr "USA"); Some (VStr "Globex"); Some (VNum 2024); Some (VNum 20)] ].

Definition no_global : global_picks := mkGlobalPicks 0 0 0.

(** No asset can be opened. *)
Definition no_images (path : string) : bool := false.

(** Slot 1 picks USA and Acme; slot 2 leaves Country unset and picks
    Globex. *)
Definition input_brand_only : user_input :=
  mkInput 2 no_global
    (fun i => match i with
              | 0 => mkSlotPicks 1 1 0 0
              | _ => mkSlotPicks 0 2 0 0
              end).

(** Slot 1 picks USA and leaves Brand unset; slot 2 picks USA and Globex. *)
Definition input_country_only : user_input :=
  mkInput 2 no_global
    (fun i => match i with
              | 0 => mkSlotPicks 1 0 0 0
              | _ => mkSlotPicks 1 2 0 0
              end).

(** Both slots pick USA and Acme, for the years 2023 and 2024. *)
Definition input_same_brand : user_input :=
  mkInput 2 no_global
    (fun i => match i with
              | 0 => mkSlotPicks 1 1 1 0
              | _ => mkSlotPicks 1 1 2 0
              end).

(** A matched selection whose logo cell holds the text "-", and an
    unmatched one. *)
Definition dash_logo : selection :=
  mkSelection (VStr "USA") (VStr "Acme") None None
    (mkDF ["Country"; "Brand"; "Brand logo"]
       [[Some (VStr "USA"); Some (VStr "Acme"); Some (VStr "-")]]).

Definition unmatched : selection :=
  mkSelection CHOOSE CHOOSE None None empty_frame.

(** ** Loading the table (script lines 12-24) *)

Definition PATH_XLSX : string := "Data_Market analysis_2025_9.xlsx".
Definition PATH_CSV : string := "Data_Market analysis_2025_9.csv".

(** [load_data()]: the outcomes of the two readers are inputs.  [None] is
    any exception of [pd.read_excel]; [inr e] is an exception of
    [pd.read_csv] with its text [e].  The result is the table together with
    the text [st.error] shows, if any. *)
Definition load_data (read_excel : option DataFrame) (read_csv : DataFrame + string)
  : DataFrame * option string :=
  match read_excel with
  | Some df => (df, None)
  | None =>
      match read_csv with
      | inl df => (df, None)
      | inr e =>
          (empty_frame,
           Some ("Could not load data. Make sure '" ++ PATH_XLSX ++ "' or '"
                 ++ PATH_CSV ++ "' exists. Error: " ++ e))
      end
  end.

(** The whole script: load, then draw; the error text and the outcome. *)
Definition script (image_opens : string -> bool) (read_excel : option DataFrame)
    (read_csv : DataFrame + string) (u : user_input)
  : option string * res outcome :=
  let '(df, err) := load_data read_excel read_csv in
  (err, app image_opens df u).

(** ** Notions the further properties are stated with *)

(** A computation whose only possible exception is [TypeError]. *)
Definition only_type_error {A : Type} (m : res A) : Prop :=
  forall e, m = Raise e -> e = TypeError.

(** Python's [<=] on two values of one kind, as a proposition. *)
Definition value_le (a b : value) : Prop := value_leb a b = true.

(** The export's field names of one slot: its columns behind its brand. *)
Definition fields (s : selection) : list string :=
  map (fun c => show_value (brand s) ++ " - " ++ c) (columns (row s)).

(** The default state of a slot's four widgets, and an input whose slots
    all rest there. *)
Definition slot_defaults : slot_picks := mkSlotPicks 0 0 0 0.

(** A table whose Year column mixes a number with a text. *)
Definition mixed_years : DataFrame :=
  mkDF ["Country"; "Brand"; "Year"]
    [ [Some (VStr "USA"); Some (VStr "Acme"); Some (VNum 2023)];
      [Some (VStr "USA"); Some (VStr "Acme"); Some (VStr "n/a")] ].

(** Three slots: USA and Acme, USA and Globex, and a slot left on its
    defaults. *)
Definition input_three : user_input :=
  mkInput 3 no_global
    (fun i => match i with
              | 0 => mkSlotPicks 1 1 0 0
              | 1 => mkSlotPicks 1 2 0 0
              | _ => slot_defaults
              end).

(** Every widget left on its default, for three slots. *)
Definition input_defaults : user_input :=
  mkInput 3 no_global (fun _ => slot_defaults).



(** * Properties *)

(** ** Basic facts about names, cells and the error monad *)

Lemma bind_Ok_inv (A B : Type) (m : res A) (k : A -> res B) (b : B) :
  bind m k = Ok b -> exists a, m = Ok a /\ k a = Ok b.
Proof.
  destruct m as [a|e]; simpl; intros H; [exists a; auto | discriminate].
Qed.

Ltac bind_inv H :=
  let a := fresh "x" in
  let Ha := fresh "E" in
  apply bind_Ok_inv in H; destruct H as [a [Ha H]].

Lemma has_col_In (cols : list string) (c : string) :
  has_col cols c = true <-> In c cols.
Proof.
  unfold has_col. rewrite existsb_exists. split.
  - intros [x [Hin Heq]]. apply String.eqb_eq in Heq. now subst.
  - intros Hin. exists c. split; [assumption | apply String.eqb_refl].
Qed.

Lemma has_col_false (cols : list string) (c : string) :
  has_col cols c = false <-> ~ In c cols.
Proof.
  rewrite <- has_col_In. destruct (has_col cols c); split; intro H;
    try discriminate; try reflexivity; try (intro; discriminate).
  exfalso. now apply H.
Qed.

Lemma index_of_Some_In (c : string) (cols : list string) (j : nat) :
  index_of c cols = Some j -> In c cols.
Proof.
  revert j. induction cols as [|x xs IH]; simpl; intros j H; [discriminate|].
  destruct (String.eqb c x) eqn:E.
  - apply String.eqb_eq in E. now left.
  - destruct (index_of c xs); [|discriminate]. right. now apply (IH n).
Qed.

Lemma index_of_In (c : string) (cols : list string) :
  In c cols -> exists j, index_of c cols = Some j.
Proof.
  induction cols as [|x xs IH]; simpl; intros H; [contradiction|].
  destruct (String.eqb c x) eqn:E.
  - now exists 0.
  - destruct H as [H|H].
    + subst. rewrite String.eqb_refl in E. discriminate.
    + destruct (IH H) as [j Hj]. rewrite Hj. now exists (S j).
Qed.

Lemma index_of_None (c : string) (cols : list string) :
  index_of c cols = None <-> ~ In c cols.
Proof.
  split.
  - intros H Hin. destruct (index_of_In _ _ Hin) as [j Hj]. congruence.
  - intros H. destruct (index_of c cols) eqn:E; [|reflexivity].
    exfalso. apply H. now apply (index_of_Some_In _ _ _ E).
Qed.

Lemma value_eqb_eq (a b : value) : value_eqb a b = true <-> a = b.
Proof.
  destruct a, b; simpl; split; intro H; try discriminate.
  - apply String.eqb_eq in H. now subst.
  - inversion H. apply String.eqb_refl.
  - apply Z.eqb_eq in H. now subst.
  - inversion H. apply Z.eqb_refl.
Qed.

Lemma value_eqb_refl (a : value) : value_eqb a a = true.
Proof. now apply value_eqb_eq. Qed.

Lemma value_eqb_neq (a b : value) : value_eqb a b = false <-> a <> b.
Proof.
  rewrite <- value_eqb_eq. destruct (value_eqb a b); split; intro H;
    try discriminate; try reflexivity; try (intro; discriminate).
  exfalso. now apply H.
Qed.

(** ** The column resolver *)

Lemma get_col_Some (cols options : list string) (o : string) :
  get_col cols options = Some o ->
  exists pre post, options = (pre ++ o :: post)%list /\ In o cols /\
                   forall v, In v pre -> ~ In v cols.
Proof.
  induction options as [|x rest IH]; simpl; intros H; [discriminate|].
  destruct (has_col cols x) eqn:E.
  - inversion H; subst. exists [], rest. repeat split.
    + now apply has_col_In.
    + intros v [].
  - destruct (IH H) as [pre [post [Heq [Hin Hpre]]]].
    exists (x :: pre), post. repeat split.
    + simpl. now rewrite Heq.
    + assumption.
    + intros v [Hv|Hv]; [subst; now apply has_col_false | now apply Hpre].
Qed.

Lemma get_col_None (cols options : list string) :
  get_col cols options = None -> forall v, In v options -> ~ In v cols.
Proof.
  induction options as [|x rest IH]; simpl; intros H v Hv; [contradiction|].
  destruct (has_col cols x) eqn:E; [discriminate|].
  destruct Hv as [Hv|Hv]; [subst; now apply has_col_false | now apply IH].
Qed.

Lemma get_col_In_options (cols options : list string) (o : string) :
  get_col cols options = Some o -> In o options.
Proof.
  intros H. destruct (get_col_Some _ _ _ H) as [pre [post [Heq _]]].
  rewrite Heq. apply in_or_app. right. now left.
Qed.

Lemma get_col_In_cols (cols options : list string) (o : string) :
  get_col cols options = Some o -> In o cols.
Proof.
  intros H. destruct (get_col_Some _ _ _ H) as [pre [post [_ [Hin _]]]]. exact Hin.
Qed.

Lemma get_col_ext (cols cols' options : list string) :
  (forall c, In c options -> (In c cols <-> In c cols')) ->
  get_col cols' options = get_col cols options.
Proof.
  induction options as [|x rest IH]; simpl; intros H; [reflexivity|].
  assert (Hx : has_col cols' x = has_col cols x).
  { destruct (has_col cols x) eqn:E.
    - apply has_col_In. apply H; [now left|]. now apply has_col_In.
    - apply has_col_false. apply has_col_false in E. intros Hin. apply E.
      apply H; [now left | assumption]. }
  rewrite Hx. destruct (has_col cols x); [reflexivity|].
  apply IH. intros c Hc. apply H. now right.
Qed.

(** C8.  For every role, the resolver returns the first accepted spelling
    (in the role's priority order) that is a column of the table, and
    nothing when no spelling is a column; the result is fixed by which
    names are columns (not by their order or multiplicity), and for one
    role it is fixed by the presence of that role's own spellings alone,
    so resolving one role never affects another. *)
Theorem resolve_first_present_variant (cols : list string) (r : role) :
  match resolve cols r with
  | Some o =>
      exists pre post, variants r = (pre ++ o :: post)%list /\ In o cols /\
                       forall v, In v pre -> ~ In v cols
  | None => forall v, In v (variants r) -> ~ In v cols
  end
  /\ (forall cols', (forall c, In c cols <-> In c cols') ->
                    resolve cols' r = resolve cols r)
  /\ (forall cols', (forall c, In c (variants r) -> (In c cols <-> In c cols')) ->
                    resolve cols' r = resolve cols r).
Proof.
  unfold resolve. repeat split.
  - destruct (get_col cols (variants r)) eqn:E.
    + now apply get_col_Some.
    + now apply get_col_None.
  - intros cols' H. apply get_col_ext. intros c _. apply H.
  - intros cols' H. now apply get_col_ext.
Qed.

(** ** Filters and option lists *)

Lemma filter_all_true (A : Type) (l : list A) : filter (fun _ => true) l = l.
Proof. induction l as [|a t IH]; simpl; [reflexivity | now rewrite IH]. Qed.

Lemma filter_eq_Ok (df d : DataFrame) (col : option string) (v : value) :
  filter_eq df col v = Ok d ->
  exists c j, col = Some c /\ index_of c (columns df) = Some j /\
    d = mkDF (columns df) (filter (fun r => cell_eqb (cell_at j r) v) (rows df)).
Proof.
  unfold filter_eq. destruct col as [c|]; [|discriminate].
  destruct (index_of c (columns df)) as [j|] eqn:E; [|discriminate].
  intros H. inversion H. now exists c, j.
Qed.

Lemma filter_eq_keeps (df d : DataFrame) (col : option string) (ph v : value) :
  v <> ph -> filter_eq df col v = Ok d ->
  columns d = columns df /\
  rows d = filter (keeps (columns df) col ph v) (rows df).
Proof.
  intros Hne H. destruct (filter_eq_Ok _ _ _ _ H) as [c [j [Hc [Hj Hd]]]].
  subst d col. simpl. split; [reflexivity|].
  apply filter_ext. intros r. unfold keeps.
  apply value_eqb_neq in Hne. now rewrite Hne, Hj.
Qed.

Lemma narrow_keeps (df d : DataFrame) (col : option string) (ph sel : value) :
  narrow df col ph sel = Ok d ->
  columns d = columns df /\
  rows d = filter (keeps (columns df) col ph sel) (rows df).
Proof.
  unfold narrow. destruct (value_eqb sel ph) eqn:E; simpl.
  - intros H. inversion H; subst d. split; [reflexivity|].
    rewrite <- (filter_all_true _ (rows df)) at 1.
    apply filter_ext. intros r. unfold keeps. now rewrite E.
  - apply filter_eq_keeps. now apply value_eqb_neq.
Qed.

Lemma narrow_placeholder (df : DataFrame) (col : option string) (ph : value) :
  narrow df col ph ph = Ok df.
Proof. unfold narrow. now rewrite value_eqb_refl. Qed.

Lemma In_dropna (s : list cell) (v : value) : In v (dropna s) <-> In (Some v) s.
Proof.
  induction s as [|[a|] t IH]; simpl.
  - tauto.
  - rewrite IH. split; intros [H|H]; auto; left; congruence.
  - rewrite IH. split; [auto | intros [H|H]; [discriminate | assumption]].
Qed.

Lemma existsb_value_eqb (v : value) (l : list value) :
  existsb (value_eqb v) l = true <-> In v l.
Proof.
  rewrite existsb_exists. split.
  - intros [x [Hin Heq]]. apply value_eqb_eq in Heq. now subst.
  - intros H. exists v. split; [assumption | apply value_eqb_refl].
Qed.

Lemma In_unique_acc (s seen : list value) (v : value) :
  In v (unique_acc seen s) <-> In v s /\ ~ In v seen.
Proof.
  revert seen. induction s as [|a t IH]; intros seen; simpl.
  - tauto.
  - destruct (existsb (value_eqb a) seen) eqn:E.
    + apply existsb_value_eqb in E. rewrite IH. split.
      * intros [H1 H2]. auto.
      * intros [[H1|H1] H2]; [subst; contradiction | auto].
    + assert (Ha : ~ In a seen).
      { intros H. apply existsb_value_eqb in H. congruence. }
      simpl. rewrite IH. simpl. split.
      * intros [H|[H1 H2]]; [subst; auto | split; [auto | intros H; apply H2; auto]].
      * intros [[H1|H1] H2]; [auto|].
        destruct (value_eqb a v) eqn:Eav.
        -- apply value_eqb_eq in Eav. auto.
        -- apply value_eqb_neq in Eav. right. split; [assumption|].
           intros [H|H]; [contradiction | contradiction].
Qed.

Lemma In_unique (s : list value) (v : value) : In v (unique s) <-> In v s.
Proof. unfold unique. rewrite In_unique_acc. simpl. tauto. Qed.

Lemma NoDup_unique_acc (s seen : list value) : NoDup (unique_acc seen s).
Proof.
  revert seen. induction s as [|a t IH]; intros seen; simpl.
  - constructor.
  - destruct (existsb (value_eqb a) seen); [apply IH|].
    constructor; [|apply IH].
    rewrite In_unique_acc. intros [_ H]. apply H. now left.
Qed.

Lemma In_insert_sorted (v x : value) (l : list value) :
  In x (insert_sorted v l) <-> x = v \/ In x l.
Proof.
  induction l as [|a t IH]; simpl.
  - split; intros [H|H]; auto.
  - destruct (value_leb v a); simpl.
    + split; intros [H|H]; auto.
    + rewrite IH. split; [intros [H|[H|H]] | intros [H|[H|H]]]; auto.
Qed.

Lemma In_sort_values (x : value) (l : list value) :
  In x (sort_values l) <-> In x l.
Proof.
  induction l as [|a t IH]; simpl; [tauto|].
  rewrite In_insert_sorted, IH. split; intros [H|H]; auto.
Qed.

Lemma same_kind_sym (a b : value) : same_kind a b = same_kind b a.
Proof. now destruct a, b. Qed.

Lemma same_kind_trans (a b c : value) :
  same_kind a b = true -> same_kind b c = true -> same_kind a c = true.
Proof. destruct a, b, c; simpl; congruence. Qed.

Lemma homogeneous_spec (l : list value) :
  homogeneous l = true <->
  forall a b, In a l -> In b l -> same_kind a b = true.
Proof.
  destruct l as [|x t]; simpl.
  - split; [intros _ a b [] | reflexivity].
  - rewrite forallb_forall. split.
    + intros H a b Ha Hb.
      assert (K : forall y, x = y \/ In y t -> same_kind x y = true).
      { intros y [Hy|Hy]; [subst; now destruct y | now apply H]. }
      apply same_kind_trans with x; [rewrite same_kind_sym|]; now apply K.
    + intros H y Hy. apply H; auto.
Qed.

Lemma sorted_Ok (l o : list value) :
  sorted l = Ok o -> forall v, In v o <-> In v l.
Proof.
  unfold sorted. destruct (homogeneous l); [|discriminate].
  intros H v. inversion H. apply In_sort_values.
Qed.

Lemma sorted_incl (l l' o : list value) :
  sorted l = Ok o -> incl l' l -> exists o', sorted l' = Ok o' /\ incl o' o.
Proof.
  intros H Hincl. pose proof (sorted_Ok _ _ H) as Hmem.
  unfold sorted in *. destruct (homogeneous l) eqn:E; [|discriminate].
  assert (E' : homogeneous l' = true).
  { apply homogeneous_spec. intros a b Ha Hb.
    apply (proj1 (homogeneous_spec l) E); now apply Hincl. }
  rewrite E'. eexists. split; [reflexivity|].
  intros v Hv. apply Hmem. apply Hincl. now apply In_sort_values.
Qed.

(** The values a column offers are exactly the non-missing cells of that
    column in some row. *)
Lemma sorted_unique_In (df : DataFrame) (c : string) (o : list value) :
  sorted_unique df c = Ok o ->
  exists j, index_of c (columns df) = Some j /\
    forall v, In v o <-> exists r, In r (rows df) /\ cell_at j r = Some v.
Proof.
  unfold sorted_unique, column.
  destruct (index_of c (columns df)) as [j|]; [|discriminate]. simpl.
  intros H. exists j. split; [reflexivity|]. intros v.
  rewrite (sorted_Ok _ _ H), In_unique, In_dropna, in_map_iff.
  split; intros [r [H1 H2]]; exists r; auto.
Qed.

(** Fewer rows offer fewer values, and never a new exception. *)
Lemma sorted_unique_shrinks (df d : DataFrame) (c : string) (o : list value) :
  sorted_unique df c = Ok o ->
  columns d = columns df -> incl (rows d) (rows df) ->
  exists o', sorted_unique d c = Ok o' /\ incl o' o.
Proof.
  unfold sorted_unique, column. intros H Hc Hr. rewrite Hc.
  destruct (index_of c (columns df)) as [j|]; [|discriminate]. simpl in *.
  apply (sorted_incl _ _ _ H). intros v.
  rewrite !In_unique, !In_dropna, !in_map_iff.
  intros [r [H1 H2]]. exists r. split; [assumption | now apply Hr].
Qed.

Lemma uniques_shrinks (df d : DataFrame) (col : option string) (o : list value) :
  uniques df col = Ok o ->
  columns d = columns df -> incl (rows d) (rows df) ->
  exists o', uniques d col = Ok o' /\ incl o' o.
Proof.
  destruct col as [c|]; simpl.
  - apply sorted_unique_shrinks.
  - intros H _ _. exists []. split; [reflexivity | intros v []].
Qed.

Lemma firstn_In (A : Type) (n : nat) (l : list A) (x : A) :
  In x (firstn n l) -> In x l.
Proof.
  intros H. rewrite <- (firstn_skipn n l). apply in_or_app. now left.
Qed.

Lemma incl_filter (A : Type) (f : A -> bool) (l : list A) : incl (filter f l) l.
Proof. intros a H. apply filter_In in H. tauto. Qed.

Lemma narrow_shrinks (df d : DataFrame) (col c : option string) (ph sel : value)
    (o : list value) :
  narrow df col ph sel = Ok d -> uniques df c = Ok o ->
  exists o', uniques d c = Ok o' /\ incl o' o.
Proof.
  intros Hn Hu. destruct (narrow_keeps _ _ _ _ _ Hn) as [Hc Hr].
  apply (uniques_shrinks _ _ _ _ Hu Hc). rewrite Hr. apply incl_filter.
Qed.

(** ** Unfolding one run of the sidebar *)

Lemma filter_filter (A : Type) (f g : A -> bool) (l : list A) :
  filter f (filter g l) = filter (fun x => g x && f x) l.
Proof.
  induction l as [|a t IH]; simpl; [reflexivity|].
  destruct (g a); simpl; [destruct (f a)|]; now rewrite IH.
Qed.

Lemma global_filters_inv (df : DataFrame) (p : global_picks) (g : global_view) :
  global_filters df p = Ok g ->
  let cols := columns df in
  exists y0 q0 r0 c0 df1 q1 r1 c1 df2 r2 c2,
    uniques df (col_year cols) = Ok y0 /\
    uniques df (col_quarter cols) = Ok q0 /\
    uniques df (col_region cols) = Ok r0 /\
    uniques df (col_country cols) = Ok c0 /\
    year_options g = ALL :: y0 /\
    global_year g = selectbox (ALL :: y0) (pick_global_year p) /\
    narrow df (col_year cols) ALL (global_year g) = Ok df1 /\
    uniques df1 (col_quarter cols) = Ok q1 /\
    uniques df1 (col_region cols) = Ok r1 /\
    uniques df1 (col_country cols) = Ok c1 /\
    quarter_options g = ALL :: q1 /\
    global_quarter g = selectbox (ALL :: q1) (pick_global_quarter p) /\
    narrow df1 (col_quarter cols) ALL (global_quarter g) = Ok df2 /\
    uniques df2 (col_region cols) = Ok r2 /\
    uniques df2 (col_country cols) = Ok c2 /\
    region_options g = ALL :: r2 /\
    global_region g = selectbox (ALL :: r2) (pick_global_region p) /\
    narrow df2 (col_region cols) ALL (global_region g) = Ok (narrowed g) /\
    uniques (narrowed g) (col_country cols) = Ok (unique_countries g).
Proof.
  intros H cols. unfold global_filters in H. fold cols in H.
  bind_inv H; rename x into y0, E into Ey0.
  bind_inv H; rename x into q0, E into Eq0.
  bind_inv H; rename x into r0, E into Er0.
  bind_inv H; rename x into c0, E into Ec0.
  bind_inv H. destruct x as [[[df1 q1] r1] c1]. rename E into E1.
  bind_inv H. destruct x as [[df2 r2] c2]. rename E into E2.
  bind_inv H. destruct x as [df3 c3]. rename E into E3.
  inversion H; subst g; clear H. simpl.
  exists y0, q0, r0, c0, df1, q1, r1, c1, df2, r2, c2.
  assert (A1 : narrow df (col_year cols) ALL
                 (selectbox (ALL :: y0) (pick_global_year p)) = Ok df1
               /\ uniques df1 (col_quarter cols) = Ok q1
               /\ uniques df1 (col_region cols) = Ok r1
               /\ uniques df1 (col_country cols) = Ok c1).
  { unfold narrow.
    destruct (negb (value_eqb (selectbox (ALL :: y0) (pick_global_year p)) ALL)).
    - bind_inv E1. bind_inv E1. bind_inv E1. bind_inv E1.
      inversion E1; subst. auto.
    - inversion E1; subst. auto. }
  destruct A1 as [N1 [Uq1 [Ur1 Uc1]]].
  assert (A2 : narrow df1 (col_quarter cols) ALL
                 (selectbox (ALL :: q1) (pick_global_quarter p)) = Ok df2
               /\ uniques df2 (col_region cols) = Ok r2
               /\ uniques df2 (col_country cols) = Ok c2).
  { unfold narrow.
    destruct (negb (value_eqb (selectbox (ALL :: q1) (pick_global_quarter p)) ALL)).
    - bind_inv E2. bind_inv E2. bind_inv E2.
      inversion E2; subst. auto.
    - inversion E2; subst. auto. }
  destruct A2 as [N2 [Ur2 Uc2]].
  assert (A3 : narrow df2 (col_region cols) ALL
                 (selectbox (ALL :: r2) (pick_global_region p)) = Ok df3
               /\ uniques df3 (col_country cols) = Ok c3).
  { unfold narrow.
    destruct (negb (value_eqb (selectbox (ALL :: r2) (pick_global_region p)) ALL)).
    - bind_inv E3. bind_inv E3.
      inversion E3; subst. auto.
    - inversion E3; subst. auto. }
  destruct A3 as [N3 Uc3].
  repeat split; assumption || reflexivity.
Qed.

Lemma competitor_inv (cols : list string) (df : DataFrame) (p : slot_picks)
    (v : slot_view) :
  competitor cols df p = Ok v ->
  exists cs d1 bs d2 d3,
    uniques df (col_country cols) = Ok cs /\
    country_opts v = CHOOSE :: cs /\
    country (chosen v) = selectbox (CHOOSE :: cs) (pick_country p) /\
    narrow df (col_country cols) CHOOSE (country (chosen v)) = Ok d1 /\
    uniques d1 (col_brand cols) = Ok bs /\
    brand_opts v = CHOOSE :: bs /\
    brand (chosen v) = selectbox (CHOOSE :: bs) (pick_brand p) /\
    match col_year cols with
    | Some c => exists ys, sorted_unique d1 c = Ok ys /\
                  year_opts v = Some (ANY :: ys) /\
                  year (chosen v) = Some (selectbox (ANY :: ys) (pick_year p))
    | None => year_opts v = None /\ year (chosen v) = None
    end /\
    narrow d1 (col_year cols) ANY (sel_or ANY (year (chosen v))) = Ok d2 /\
    match col_quarter cols with
    | Some c => exists qs, sorted_unique d2 c = Ok qs /\
                  q_opts v = Some (ANY :: qs) /\
                  quarter (chosen v) = Some (selectbox (ANY :: qs) (pick_quarter p))
    | None => q_opts v = None /\ quarter (chosen v) = None
    end /\
    narrow d2 (col_quarter cols) ANY (sel_or ANY (quarter (chosen v))) = Ok d3 /\
    chosen_row cols d3 (brand (chosen v)) = Ok (row (chosen v)).
Proof.
  intros H. unfold competitor in H.
  bind_inv H; rename x into cs, E into Ecs.
  bind_inv H; rename x into d1, E into Ed1.
  bind_inv H; rename x into bs, E into Ebs.
  bind_inv H. destruct x as [[yo sy] d2]. rename E into Ey.
  bind_inv H. destruct x as [[qo sq] d3]. rename E into Eq.
  bind_inv H. rename x into r, E into Er.
  inversion H; subst v; clear H. simpl.
  exists cs, d1, bs, d2, d3.
  assert (AY : match col_year cols with
               | Some c => exists ys, sorted_unique d1 c = Ok ys /\
                   yo = Some (ANY :: ys) /\
                   sy = Some (selectbox (ANY :: ys) (pick_year p))
               | None => yo = None /\ sy = None
               end /\ narrow d1 (col_year cols) ANY (sel_or ANY sy) = Ok d2).
  { unfold any_filter in Ey. destruct (col_year cols) as [c|].
    - bind_inv Ey. bind_inv Ey. inversion Ey; subst. simpl.
      split; [exists x; auto | assumption].
    - inversion Ey; subst. simpl. split; [auto | apply narrow_placeholder]. }
  assert (AQ : match col_quarter cols with
               | Some c => exists qs, sorted_unique d2 c = Ok qs /\
                   qo = Some (ANY :: qs) /\
                   sq = Some (selectbox (ANY :: qs) (pick_quarter p))
               | None => qo = None /\ sq = None
               end /\ narrow d2 (col_quarter cols) ANY (sel_or ANY sq) = Ok d3).
  { unfold any_filter in Eq. destruct (col_quarter cols) as [c|].
    - bind_inv Eq. bind_inv Eq. inversion Eq; subst. simpl.
      split; [exists x; auto | assumption].
    - inversion Eq; subst. simpl. split; [auto | apply narrow_placeholder]. }
  destruct AY as [AY1 AY2]. destruct AQ as [AQ1 AQ2].
  repeat split; assumption || reflexivity.
Qed.

Lemma competitors_nth (cols : list string) (df : DataFrame)
    (picks : nat -> slot_picks) (n i : nat) (views : list slot_view) :
  competitors cols df picks i n = Ok views ->
  List.length views = n /\
  forall k v, nth_error views k = Some v ->
              competitor cols df (picks (i + k)) = Ok v.
Proof.
  revert i views. induction n as [|n IH]; intros i views H; simpl in H.
  - inversion H; subst. split; [reflexivity|]. intros [|k] v Hk; discriminate.
  - bind_inv H. bind_inv H. inversion H; subst; clear H.
    destruct (IH _ _ E0) as [Hlen Hnth]. split; [simpl; now rewrite Hlen|].
    intros [|k] v Hk; simpl in Hk.
    + inversion Hk; subst. now rewrite Nat.add_0_r.
    + rewrite Nat.add_succ_r. now apply Hnth.
Qed.

Lemma competitors_In (cols : list string) (df : DataFrame)
    (picks : nat -> slot_picks) (n i : nat) (views : list slot_view) (v : slot_view) :
  competitors cols df picks i n = Ok views -> In v views ->
  exists k, competitor cols df (picks k) = Ok v.
Proof.
  intros H Hin. apply In_nth_error in Hin. destruct Hin as [k Hk].
  exists (i + k). now apply (proj2 (competitors_nth _ _ _ _ _ _ H)).
Qed.

(** What [app] did when it drew a page. *)
Lemma app_inv (io : string -> bool) (df : DataFrame) (u : user_input) (p : page) :
  app io df u = Ok (Page p) ->
  empty df = false /\
  global_filters df (pick_global u) = Ok (sidebar_global p) /\
  competitors (columns df) (narrowed (sidebar_global p)) (pick_slot u) 0
    (slider 2 10 (pick_num_comp u)) = Ok (sidebar_slots p).
Proof.
  unfold app. destruct (empty df); [discriminate|]. intros H.
  bind_inv H. bind_inv H.
  destruct (Nat.ltb (List.length (valid_rows (map chosen x0))) 2).
  - inversion H; subst. simpl. auto.
  - bind_inv H. inversion H; subst. simpl. auto.
Qed.

(** ** The row a slot resolves to *)

Lemma global_rows (df : DataFrame) (p : global_picks) (g : global_view) :
  global_filters df p = Ok g ->
  columns (narrowed g) = columns df /\
  rows (narrowed g) = filter (global_keeps (columns df) g) (rows df).
Proof.
  intros H. apply global_filters_inv in H. simpl in H.
  destruct H as (y0 & q0 & r0 & c0 & df1 & q1 & r1 & c1 & df2 & r2 & c2 & H).
  destruct H as (_ & _ & _ & _ & _ & _ & N1 & _ & _ & _ & _ & _ & N2 & _ & _ & _ & _ & N3 & _).
  apply narrow_keeps in N1, N2, N3.
  destruct N1 as [C1 R1], N2 as [C2 R2], N3 as [C3 R3].
  rewrite C2, C1 in C3. rewrite C1 in R2. rewrite C2, C1 in R3.
  split; [assumption|].
  rewrite R3, R2, R1, !filter_filter.
  apply filter_ext. intros r. unfold global_keeps. now rewrite andb_assoc.
Qed.

Lemma chosen_row_unset (cols : list string) (d r : DataFrame) :
  chosen_row cols d CHOOSE = Ok r -> r = empty_frame.
Proof. unfold chosen_row. simpl. intros H. now inversion H. Qed.

Lemma chosen_row_set (cols : list string) (d r : DataFrame) (sel : value) :
  sel <> CHOOSE -> chosen_row cols d sel = Ok r ->
  rows r = firstn 1 (filter (keeps (columns d) (col_brand cols) CHOOSE sel) (rows d))
  /\ (rows r <> [] -> columns r = columns d).
Proof.
  intros Hne. unfold chosen_row.
  pose proof (proj2 (value_eqb_neq _ _) Hne) as E. rewrite E. simpl.
  intros H. bind_inv H. rename x into subset.
  destruct (filter_eq_keeps _ _ _ CHOOSE _ Hne E0) as [Hc Hr].
  assert (Hcols : columns d <> []).
  { intros K. apply filter_eq_Ok in E0. destruct E0 as (c & j & _ & Hj & _).
    rewrite K in Hj. discriminate. }
  inversion H; subst r; clear H.
  rewrite <- Hr. unfold empty. rewrite Hc.
  destruct (columns d) as [|c0 cs0] eqn:Ecols; [now elim Hcols|].
  destruct (rows subset) as [|r0 rs] eqn:Ef; simpl.
  - split; [reflexivity | intros K; now elim K].
  - rewrite Ef. simpl. split; [reflexivity | intros _; exact Hc].
Qed.

Lemma slot_rows (df : DataFrame) (p : slot_picks) (v : slot_view) :
  competitor (columns df) df p = Ok v ->
  (brand (chosen v) = CHOOSE -> row (chosen v) = empty_frame) /\
  (brand (chosen v) <> CHOOSE ->
     rows (row (chosen v))
     = firstn 1 (filter (slot_keeps (columns df) (chosen v)) (rows df))
     /\ (rows (row (chosen v)) <> [] -> columns (row (chosen v)) = columns df)).
Proof.
  intros H. apply competitor_inv in H.
  destruct H as (cs & d1 & bs & d2 & d3 & H).
  destruct H as (_ & _ & _ & N1 & _ & _ & _ & _ & N2 & _ & N3 & R).
  split.
  - intros Hb. rewrite Hb in R. now apply chosen_row_unset in R.
  - intros Hb. apply narrow_keeps in N1, N2, N3.
    destruct N1 as [C1 R1], N2 as [C2 R2], N3 as [C3 R3].
    rewrite C1 in C2. rewrite C1 in R2. rewrite C2 in C3, R3.
    destruct (chosen_row_set _ _ _ _ Hb R) as [Hrows Hcols].
    rewrite C3 in Hrows, Hcols. split; [|assumption].
    rewrite Hrows, R3, R2, R1, !filter_filter. f_equal.
    apply filter_ext. intros r. unfold slot_keeps.
    destruct (keeps _ (col_country _) _ _ r), (keeps _ (col_brand _) _ _ r),
      (keeps _ (col_year _) _ _ r), (keeps _ (col_quarter _) _ _ r); reflexivity.
Qed.

(** Every slot of a drawn page is one pass of the loop body over the
    globally narrowed table. *)
Lemma page_slot (io : string -> bool) (df : DataFrame) (u : user_input) (p : page)
    (i : nat) (v : slot_view) :
  app io df u = Ok (Page p) -> nth_error (sidebar_slots p) i = Some v ->
  competitor (columns (narrowed (sidebar_global p))) (narrowed (sidebar_global p))
    (pick_slot u i) = Ok v.
Proof.
  intros H Hi. destruct (app_inv _ _ _ _ H) as (_ & G & S).
  destruct (global_rows _ _ _ G) as [Hc _]. rewrite Hc.
  now apply (proj2 (competitors_nth _ _ _ _ _ _ S) i v).
Qed.

(** C4, as amended.  For every slot whose Brand is chosen, the resolved
    row is the first row, in original table order, among the rows of the
    loaded table that pass the global filters and the slot's own filters
    (a filter left on its placeholder passes every row): the first of
    several, the only one, or no match exactly when none remains; a matched
    row carries the table's columns. *)
Theorem chosen_row_is_first_match (io : string -> bool) (df : DataFrame)
    (u : user_input) (p : page) (i : nat) (v : slot_view) :
  app io df u = Ok (Page p) ->
  nth_error (sidebar_slots p) i = Some v ->
  brand (chosen v) <> CHOOSE ->
  let remain := filter (fun r => global_keeps (columns df) (sidebar_global p) r
                                 && slot_keeps (columns df) (chosen v) r)
                       (rows df) in
  rows (row (chosen v)) = firstn 1 remain
  /\ (rows (row (chosen v)) <> [] -> columns (row (chosen v)) = columns df)
  /\ (empty (row (chosen v)) = true <-> remain = []).
Proof.
  intros H Hi Hb remain. pose proof (page_slot _ _ _ _ _ _ H Hi) as Hv.
  destruct (app_inv _ _ _ _ H) as (He & G & _).
  destruct (global_rows _ _ _ G) as [Hc Hr].
  destruct (slot_rows _ _ _ Hv) as [_ K]. destruct (K Hb) as [K1 K2].
  rewrite Hc in K1, K2.
  assert (R : rows (row (chosen v)) = firstn 1 remain).
  { unfold remain. now rewrite K1, Hr, filter_filter. }
  split; [exact R|]. split; [exact K2|].
  unfold empty at 1. destruct remain as [|r0 rest]; simpl in R.
  - rewrite R. split; [reflexivity|]. now destruct (columns (row (chosen v))).
  - rewrite K2 by (rewrite R; discriminate). rewrite R.
    unfold empty in He. destruct (columns df); [discriminate|].
    split; discriminate.
Qed.

(** On the sample table, slot 1 (USA, Acme, any year) resolves to the 2023
    row, the first of the two Acme rows. *)
Lemma chosen_row_is_first_match_witness :
  exists p v,
    app no_images sample input_brand_only = Ok (Page p) /\
    nth_error (sidebar_slots p) 0 = Some v /\
    let remain := filter (fun r => global_keeps (columns sample) (sidebar_global p) r
                                   && slot_keeps (columns sample) (chosen v) r)
                         (rows sample) in
    rows (row (chosen v)) = firstn 1 remain
    /\ (rows (row (chosen v)) <> [] -> columns (row (chosen v)) = columns sample)
    /\ (empty (row (chosen v)) = true <-> remain = []).
Proof.
  destruct (app no_images sample input_brand_only) as [[|p]|e] eqn:E;
    try (vm_compute in E; discriminate).
  destruct (nth_error (sidebar_slots p) 0) as [v|] eqn:Ev.
  - exists p, v. split; [reflexivity|]. split; [exact Ev|].
    apply (chosen_row_is_first_match no_images sample input_brand_only p 0 v E Ev).
    vm_compute in E. inversion E; subst p. vm_compute in Ev. inversion Ev; subst v.
    vm_compute. discriminate.
  - vm_compute in E. inversion E; subst p. vm_compute in Ev. discriminate.
Defined.

(** C4 as stated fails: with USA chosen and Brand left unset, all three
    rows of the sample remain after the filters that were applied, yet the
    slot's row is no match instead of the first of them. *)
Lemma chosen_row_unset_brand_counterexample :
  exists p v,
    app no_images sample input_country_only = Ok (Page p) /\
    nth_error (sidebar_slots p) 0 = Some v /\
    List.length (filter (fun r => global_keeps (columns sample) (sidebar_global p) r
                                  && slot_keeps (columns sample) (chosen v) r)
                        (rows sample)) = 3 /\
    rows (row (chosen v)) = [] /\
    rows (row (chosen v))
    <> firstn 1 (filter (fun r => global_keeps (columns sample) (sidebar_global p) r
                                  && slot_keeps (columns sample) (chosen v) r)
                        (rows sample)).
Proof.
  eexists. eexists. split; [vm_compute; reflexivity|].
  split; [vm_compute; reflexivity|].
  split; [vm_compute; reflexivity|].
  split; [vm_compute; reflexivity|].
  vm_compute. discriminate.
Qed.

(** C1, as amended.  For every slot of a drawn page, a Brand left on
    "(choose)" makes the slot's row no match (the empty frame), whatever the
    other selections are, and the slot does not count as a valid row. *)
Theorem unset_brand_is_no_match (io : string -> bool) (df : DataFrame)
    (u : user_input) (p : page) (i : nat) (v : slot_view) :
  app io df u = Ok (Page p) ->
  nth_error (sidebar_slots p) i = Some v ->
  brand (chosen v) = CHOOSE ->
  row (chosen v) = empty_frame
  /\ empty (row (chosen v)) = true
  /\ ~ In (chosen v) (valid_rows (map chosen (sidebar_slots p))).
Proof.
  intros H Hi Hb. pose proof (page_slot _ _ _ _ _ _ H Hi) as Hv.
  destruct (slot_rows _ _ _ Hv) as [K _]. specialize (K Hb).
  rewrite K. repeat split.
  unfold valid_rows. rewrite filter_In, K. simpl. intros [_ F]. discriminate.
Qed.

(** On the sample table, slot 1 with USA chosen and Brand unset has no
    row. *)
Lemma unset_brand_is_no_match_witness :
  exists p v,
    app no_images sample input_country_only = Ok (Page p) /\
    nth_error (sidebar_slots p) 0 = Some v /\
    brand (chosen v) = CHOOSE /\
    row (chosen v) = empty_frame
    /\ empty (row (chosen v)) = true
    /\ ~ In (chosen v) (valid_rows (map chosen (sidebar_slots p))).
Proof.
  destruct (app no_images sample input_country_only) as [[|p]|e] eqn:E;
    try (vm_compute in E; discriminate).
  destruct (nth_error (sidebar_slots p) 0) as [v|] eqn:Ev.
  - assert (Hb : brand (chosen v) = CHOOSE).
    { vm_compute in E. inversion E; subst p. vm_compute in Ev.
      inversion Ev; subst v. reflexivity. }
    exists p, v. split; [reflexivity|]. split; [exact Ev|]. split; [exact Hb|].
    exact (unset_brand_is_no_match no_images sample input_country_only p 0 v E Ev Hb).
  - vm_compute in E. inversion E; subst p. vm_compute in Ev. discriminate.
Defined.

(** C1 as stated fails for Country: on the sample table, slot 2 leaves
    Country on "(choose)", picks the brand Globex and resolves to the Globex
    row. *)
Lemma unset_country_row_counterexample :
  exists p v,
    app no_images sample input_brand_only = Ok (Page p) /\
    nth_error (sidebar_slots p) 1 = Some v /\
    country (chosen v) = CHOOSE /\
    empty (row (chosen v)) = false /\
    rows (row (chosen v))
    = [[Some (VStr "USA"); Some (VStr "Globex"); Some (VNum 2024); Some (VNum 20)]].
Proof.
  eexists. eexists. split; [vm_compute; reflexivity|].
  repeat split; vm_compute; reflexivity.
Qed.

(** ** Where each option list comes from *)

Lemma narrow_same_columns (d d' e : DataFrame) (col : option string) (ph sel : value) :
  narrow d col ph sel = Ok d' -> columns e = columns d ->
  exists e', narrow e col ph sel = Ok e'.
Proof.
  unfold narrow. destruct (negb (value_eqb sel ph)); [|intros; now exists e].
  intros H Hc. apply filter_eq_Ok in H. destruct H as (c & j & Hcol & Hj & _).
  subst col. unfold filter_eq. rewrite Hc, Hj. eexists. reflexivity.
Qed.

Lemma chosen_row_total (cols : list string) (d r : DataFrame) (sel : value) :
  sel <> CHOOSE -> chosen_row cols d sel = Ok r ->
  exists subset, narrow d (col_brand cols) CHOOSE sel = Ok subset.
Proof.
  intros Hne. unfold chosen_row, narrow.
  rewrite (proj2 (value_eqb_neq _ _) Hne). simpl.
  intros H. bind_inv H. now exists x.
Qed.

(** C3, as amended.  For every slot the option lists are computed from
    these table states: Country from the globally narrowed table; Brand
    from that table after the Country filter; Year from the table after the
    Country filter alone, the Brand selection not being applied to it;
    Quarter from the table after the Country and Year filters.  The Brand
    filter is applied last, to choose the row, and the chosen row is the
    one the order Country, Brand, Year, Quarter would give. *)
Theorem slot_option_lists (io : string -> bool) (df : DataFrame)
    (u : user_input) (p : page) (i : nat) (v : slot_view) :
  app io df u = Ok (Page p) ->
  nth_error (sidebar_slots p) i = Some v ->
  let cols := columns df in
  let g := narrowed (sidebar_global p) in
  let s := chosen v in
  exists d1 d2 d3,
    narrow g (col_country cols) CHOOSE (country s) = Ok d1 /\
    narrow d1 (col_year cols) ANY (sel_or ANY (year s)) = Ok d2 /\
    narrow d2 (col_quarter cols) ANY (sel_or ANY (quarter s)) = Ok d3 /\
    chosen_row cols d3 (brand s) = Ok (row s) /\
    (exists cs, uniques g (col_country cols) = Ok cs /\ country_opts v = CHOOSE :: cs) /\
    (exists bs, uniques d1 (col_brand cols) = Ok bs /\ brand_opts v = CHOOSE :: bs) /\
    match col_year cols with
    | Some c => exists ys, sorted_unique d1 c = Ok ys /\ year_opts v = Some (ANY :: ys)
    | None => year_opts v = None
    end /\
    match col_quarter cols with
    | Some c => exists qs, sorted_unique d2 c = Ok qs /\ q_opts v = Some (ANY :: qs)
    | None => q_opts v = None
    end /\
    (brand s <> CHOOSE ->
     exists e2 e3 e4,
       narrow d1 (col_brand cols) CHOOSE (brand s) = Ok e2 /\
       narrow e2 (col_year cols) ANY (sel_or ANY (year s)) = Ok e3 /\
       narrow e3 (col_quarter cols) ANY (sel_or ANY (quarter s)) = Ok e4 /\
       rows (row s) = firstn 1 (rows e4)).
Proof.
  intros H Hi cols g s. pose proof (page_slot _ _ _ _ _ _ H Hi) as Hv.
  destruct (app_inv _ _ _ _ H) as (_ & G & _).
  destruct (global_rows _ _ _ G) as [Hc _]. fold g in Hv, Hc. fold cols in Hc.
  rewrite Hc in Hv. apply competitor_inv in Hv. fold s in Hv.
  destruct Hv as (cs & d1 & bs & d2 & d3 & Hv).
  destruct Hv as (Ucs & Ocs & _ & N1 & Ubs & Obs & _ & Y & N2 & Q & N3 & R).
  exists d1, d2, d3. repeat (split; [assumption|]).
  split; [now exists cs|]. split; [now exists bs|].
  split. { destruct (col_year cols); [destruct Y as (ys & ? & ? & _); now exists ys | tauto]. }
  split. { destruct (col_quarter cols); [destruct Q as (qs & ? & ? & _); now exists qs | tauto]. }
  intros Hb.
  destruct (narrow_keeps _ _ _ _ _ N1) as [C1 R1].
  destruct (narrow_keeps _ _ _ _ _ N2) as [C2 R2].
  destruct (narrow_keeps _ _ _ _ _ N3) as [C3 R3].
  destruct (chosen_row_set _ _ _ _ Hb R) as [Rrow _].
  destruct (chosen_row_total _ _ _ _ Hb R) as [sub Hsub].
  destruct (narrow_keeps _ _ _ _ _ Hsub) as [C4 _].
  assert (C31 : columns d1 = columns d3) by congruence.
  destruct (narrow_same_columns _ _ d1 _ _ _ Hsub C31) as [e2 E2].
  destruct (narrow_keeps _ _ _ _ _ E2) as [Ce2 Re2].
  destruct (narrow_same_columns _ _ e2 _ _ _ N2 Ce2) as [e3 E3].
  destruct (narrow_keeps _ _ _ _ _ E3) as [Ce3 Re3].
  assert (C32 : columns e3 = columns d2) by congruence.
  destruct (narrow_same_columns _ _ e3 _ _ _ N3 C32) as [e4 E4].
  destruct (narrow_keeps _ _ _ _ _ E4) as [Ce4 Re4].
  exists e2, e3, e4. repeat (split; [assumption|]).
  rewrite Rrow, Re4, Re3, Re2, R3, R2, !filter_filter.
  rewrite C3, C2, Ce3, Ce2. f_equal. apply filter_ext. intros r.
  destruct (keeps (columns d1) (col_year cols) _ _ r),
    (keeps (columns d1) (col_quarter cols) _ _ r),
    (keeps (columns d1) (col_brand cols) _ _ r); reflexivity.
Qed.

(** On the sample table, for slot 2 of the run that picks USA and Globex. *)
Lemma slot_option_lists_witness :
  exists p v,
    app no_images sample input_country_only = Ok (Page p) /\
    nth_error (sidebar_slots p) 1 = Some v /\
    year_opts v = Some [ANY; VNum 2023; VNum 2024] /\
    exists d1 d2 d3,
      narrow (narrowed (sidebar_global p)) (col_country (columns sample)) CHOOSE
        (country (chosen v)) = Ok d1 /\
      narrow d1 (col_year (columns sample)) ANY (sel_or ANY (year (chosen v))) = Ok d2 /\
      narrow d2 (col_quarter (columns sample)) ANY (sel_or ANY (quarter (chosen v)))
        = Ok d3.
Proof.
  destruct (app no_images sample input_country_only) as [[|p]|e] eqn:E;
    try (vm_compute in E; discriminate).
  destruct (nth_error (sidebar_slots p) 1) as [v|] eqn:Ev.
  - exists p, v. split; [reflexivity|]. split; [exact Ev|].
    destruct (slot_option_lists no_images sample input_country_only p 1 v E Ev)
      as (d1 & d2 & d3 & N1 & N2 & N3 & _).
    split.
    + vm_compute in E. inversion E; subst p. vm_compute in Ev.
      inversion Ev; subst v. reflexivity.
    + now exists d1, d2, d3.
  - vm_compute in E. inversion E; subst p. vm_compute in Ev. discriminate.
Defined.

(** C3 as stated fails: on the sample table with USA and Globex chosen,
    the table after the Country and Brand filters holds the single year
    2024, yet the Year list offered is computed before the Brand filter and
    also offers 2023. *)
Lemma year_options_ignore_brand_counterexample :
  exists p v d1 d2 ys,
    app no_images sample input_country_only = Ok (Page p) /\
    nth_error (sidebar_slots p) 1 = Some v /\
    brand (chosen v) = VStr "Globex" /\
    narrow (narrowed (sidebar_global p)) (col_country (columns sample)) CHOOSE
      (country (chosen v)) = Ok d1 /\
    narrow d1 (col_brand (columns sample)) CHOOSE (brand (chosen v)) = Ok d2 /\
    uniques d2 (col_year (columns sample)) = Ok ys /\
    ys = [VNum 2024] /\
    year_opts v = Some [ANY; VNum 2023; VNum 2024] /\
    year_opts v <> Some (ANY :: ys).
Proof.
  do 5 eexists. split; [vm_compute; reflexivity|].
  split; [vm_compute; reflexivity|].
  split; [vm_compute; reflexivity|].
  split; [vm_compute; reflexivity|].
  split; [vm_compute; reflexivity|].
  split; [vm_compute; reflexivity|].
  split; [reflexivity|].
  split; [vm_compute; reflexivity|].
  vm_compute. discriminate.
Qed.

(** ** Narrowing only shrinks what is offered *)

Lemma uniques_available (df : DataFrame) (col : option string) (o : list value) :
  uniques df col = Ok o -> forall v, In v o <-> In v (available df col).
Proof.
  destruct col as [c|]; simpl.
  - unfold sorted_unique, column.
    destruct (index_of c (columns df)) as [j|]; [|discriminate]. simpl.
    intros H v. apply (sorted_Ok _ _ H).
  - intros H v. inversion H. tauto.
Qed.

Lemma available_shrinks (df d : DataFrame) (col : option string) :
  columns d = columns df -> incl (rows d) (rows df) ->
  incl (available d col) (available df col).
Proof.
  intros Hc Hr. destruct col as [c|]; simpl; [|intros v []].
  rewrite Hc. destruct (index_of c (columns df)) as [j|]; [|intros v []].
  intros v. rewrite !In_unique, !In_dropna, !in_map_iff.
  intros [r [H1 H2]]. exists r. split; [assumption | now apply Hr].
Qed.

(** One step of the cascade keeps the header, keeps a selection of the
    rows in their order, and for every column leaves no value to offer that
    was not there before. *)
Lemma narrow_available (df d : DataFrame) (col : option string) (ph sel : value) :
  narrow df col ph sel = Ok d ->
  columns d = columns df
  /\ rows d = filter (keeps (columns df) col ph sel) (rows df)
  /\ forall c, incl (available d c) (available df c).
Proof.
  intros H. destruct (narrow_keeps _ _ _ _ _ H) as [Hc Hr].
  repeat split; try assumption.
  intros c. apply available_shrinks; [assumption|].
  rewrite Hr. apply incl_filter.
Qed.

Lemma offered_incl (d d' : DataFrame) (col : option string) (o : list value) :
  uniques d' col = Ok o -> incl (available d' col) (available d col) ->
  incl o (available d col).
Proof.
  intros H Hi v Hv. apply Hi. now apply (uniques_available _ _ _ H).
Qed.

(** C9.  Along the cascade of a drawn page (global Year, Quarter, Region,
    then for each slot Country, Year, Quarter and the final Brand match)
    every step keeps a selection of the previous view's rows in table order
    and adds none, so no column holds a value after a step that it did not
    hold before; and the values offered for the next filter (its option
    list without the placeholder) are among the values that filter's column
    held before the step was applied. *)
Theorem cascade_options_shrink (io : string -> bool) (df : DataFrame)
    (u : user_input) (p : page) (i : nat) (v : slot_view) :
  app io df u = Ok (Page p) ->
  nth_error (sidebar_slots p) i = Some v ->
  let cols := columns df in
  let g := sidebar_global p in
  let s := chosen v in
  exists df1 df2 d1 d2 d3,
    (narrow df (col_year cols) ALL (global_year g) = Ok df1 /\
     narrow df1 (col_quarter cols) ALL (global_quarter g) = Ok df2 /\
     narrow df2 (col_region cols) ALL (global_region g) = Ok (narrowed g) /\
     narrow (narrowed g) (col_country cols) CHOOSE (country s) = Ok d1 /\
     narrow d1 (col_year cols) ANY (sel_or ANY (year s)) = Ok d2 /\
     narrow d2 (col_quarter cols) ANY (sel_or ANY (quarter s)) = Ok d3) /\
    (rows df1 = filter (keeps cols (col_year cols) ALL (global_year g)) (rows df) /\
     rows df2 = filter (keeps cols (col_quarter cols) ALL (global_quarter g)) (rows df1) /\
     rows (narrowed g)
     = filter (keeps cols (col_region cols) ALL (global_region g)) (rows df2) /\
     rows d1 = filter (keeps cols (col_country cols) CHOOSE (country s)) (rows (narrowed g)) /\
     rows d2 = filter (keeps cols (col_year cols) ANY (sel_or ANY (year s))) (rows d1) /\
     rows d3 = filter (keeps cols (col_quarter cols) ANY (sel_or ANY (quarter s))) (rows d2) /\
     incl (rows (row s)) (rows d3)) /\
    (forall c,
        incl (available df1 c) (available df c) /\
        incl (available df2 c) (available df1 c) /\
        incl (available (narrowed g) c) (available df2 c) /\
        incl (available d1 c) (available (narrowed g) c) /\
        incl (available d2 c) (available d1 c) /\
        incl (available d3 c) (available d2 c)) /\
    (incl (tl (quarter_options g)) (available df (col_quarter cols)) /\
     incl (tl (region_options g)) (available df1 (col_region cols)) /\
     incl (unique_countries g) (available df2 (col_country cols)) /\
     incl (tl (country_opts v)) (available df2 (col_country cols)) /\
     incl (tl (brand_opts v)) (available (narrowed g) (col_brand cols)) /\
     (forall yo, year_opts v = Some yo ->
                 incl (tl yo) (available (narrowed g) (col_year cols))) /\
     (forall qo, q_opts v = Some qo ->
                 incl (tl qo) (available d1 (col_quarter cols)))).
Proof.
  intros H Hi cols g s. pose proof (page_slot _ _ _ _ _ _ H Hi) as Hv.
  destruct (app_inv _ _ _ _ H) as (_ & G & _).
  destruct (global_rows _ _ _ G) as [Hc _]. fold g in Hv, Hc. fold cols in Hc.
  rewrite Hc in Hv. apply competitor_inv in Hv. fold s in Hv.
  destruct Hv as (cs & d1 & bs & d2 & d3 & Hv).
  destruct Hv as (Ucs & Ocs & _ & N1 & Ubs & Obs & _ & Y & N2 & Q & N3 & R).
  apply global_filters_inv in G. fold cols g in G. simpl in G.
  destruct G as (y0 & q0 & r0 & c0 & df1 & q1 & r1 & c1 & df2 & r2 & c2 & G).
  destruct G as (_ & _ & _ & _ & _ & _ & M1 & Uq1 & Ur1 & _ & Oq & _ & M2
                 & Ur2 & _ & Or & _ & M3 & Uc3).
  destruct (narrow_available _ _ _ _ _ M1) as (A1 & B1 & S1).
  destruct (narrow_available _ _ _ _ _ M2) as (A2 & B2 & S2).
  destruct (narrow_available _ _ _ _ _ M3) as (A3 & B3 & S3).
  destruct (narrow_available _ _ _ _ _ N1) as (A4 & B4 & S4).
  destruct (narrow_available _ _ _ _ _ N2) as (A5 & B5 & S5).
  destruct (narrow_available _ _ _ _ _ N3) as (A6 & B6 & S6).
  fold cols in B1. rewrite A1 in B2. fold cols in B2.
  rewrite A2, A1 in B3. fold cols in B3.
  rewrite Hc in B4. rewrite A4, Hc in B5. rewrite A5, A4, Hc in B6.
  exists df1, df2, d1, d2, d3.
  split; [repeat split; assumption|].
  split.
  { repeat (split; [assumption|]).
    destruct (value_eqb (brand s) CHOOSE) eqn:Eb.
    - apply value_eqb_eq in Eb. rewrite Eb in R. apply chosen_row_unset in R.
      rewrite R. intros r [].
    - apply value_eqb_neq in Eb. destruct (chosen_row_set _ _ _ _ Eb R) as [Rr _].
      rewrite Rr. intros r Hr. apply firstn_In in Hr. now apply incl_filter in Hr. }
  split; [intros c; repeat split; auto|].
  rewrite Oq, Or, Ocs, Obs. simpl.
  split; [apply (offered_incl _ _ _ _ Uq1 (S1 _))|].
  split; [apply (offered_incl _ _ _ _ Ur2 (S2 _))|].
  split; [apply (offered_incl _ _ _ _ Uc3 (S3 _))|].
  split; [apply (offered_incl _ _ _ _ Ucs (S3 _))|].
  split; [apply (offered_incl _ _ _ _ Ubs (S4 _))|].
  split.
  - intros yo Hyo. destruct (col_year cols) as [c|] eqn:Ey.
    + destruct Y as (ys & Uys & Oys & _). rewrite Oys in Hyo.
      inversion Hyo; subst yo.
      exact (offered_incl (narrowed g) d1 (Some c) ys Uys (S4 (Some c))).
    + destruct Y as [Oys _]. congruence.
  - intros qo Hqo. destruct (col_quarter cols) as [c|] eqn:Eq.
    + destruct Q as (qs & Uqs & Oqs & _). rewrite Oqs in Hqo.
      inversion Hqo; subst qo.
      exact (offered_incl d1 d2 (Some c) qs Uqs (S5 (Some c))).
    + destruct Q as [Oqs _]. congruence.
Qed.

(** On the sample table, for slot 1 of the run that picks USA and Acme. *)
Lemma cascade_options_shrink_witness :
  exists p v,
    app no_images sample input_brand_only = Ok (Page p) /\
    nth_error (sidebar_slots p) 0 = Some v /\
    incl (tl (brand_opts v))
         (available (narrowed (sidebar_global p)) (col_brand (columns sample))) /\
    incl (tl (country_opts v)) [VStr "USA"].
Proof.
  destruct (app no_images sample input_brand_only) as [[|p]|e] eqn:E;
    try (vm_compute in E; discriminate).
  destruct (nth_error (sidebar_slots p) 0) as [v|] eqn:Ev.
  - exists p, v. split; [reflexivity|]. split; [exact Ev|].
    destruct (cascade_options_shrink no_images sample input_brand_only p 0 v E Ev)
      as (df1 & df2 & d1 & d2 & d3 & _ & _ & _ & K).
    destruct K as (_ & _ & _ & _ & Kb & _).
    split; [exact Kb|].
    vm_compute in E. inversion E; subst p. vm_compute in Ev.
    inversion Ev; subst v. simpl. intros x Hx. exact Hx.
  - vm_compute in E. inversion E; subst p. vm_compute in Ev. discriminate.
Defined.

(** ** Validation *)

(** C7.  When the sidebar has been drawn and fewer than two slots hold a
    matched row, the run ends with the page whose main area is the warning
    alone: it carries no comparison table and no export, and nothing after
    the warning can fail; the sidebar keeps its global widgets and all of
    its slots, between 2 and 10 of them. *)
Theorem insufficient_selection_halts (io : string -> bool) (df : DataFrame)
    (u : user_input) (g : global_view) (views : list slot_view) :
  empty df = false ->
  global_filters df (pick_global u) = Ok g ->
  competitors (columns df) (narrowed g) (pick_slot u) 0
    (slider 2 10 (pick_num_comp u)) = Ok views ->
  List.length (valid_rows (map chosen views)) < 2 ->
  app io df u = Ok (Page (mkPage g views (Warned WARNING)))
  /\ List.length views = slider 2 10 (pick_num_comp u)
  /\ 2 <= List.length views <= 10.
Proof.
  intros He G S Hlt. unfold app. rewrite He, G. simpl. rewrite S. simpl.
  apply Nat.ltb_lt in Hlt. rewrite Hlt.
  destruct (competitors_nth _ _ _ _ _ _ S) as [Hlen _].
  split; [reflexivity|]. split; [assumption|].
  rewrite Hlen. unfold slider. lia.
Qed.

(** On the sample table with Brand unset in slot 1, a single row is
    matched and the page shows the warning. *)
Lemma insufficient_selection_halts_witness :
  exists g views,
    app no_images sample input_country_only
    = Ok (Page (mkPage g views (Warned WARNING)))
    /\ List.length views = slider 2 10 (pick_num_comp input_country_only)
    /\ 2 <= List.length views <= 10.
Proof.
  destruct (global_filters sample (pick_global input_country_only)) as [g|e] eqn:G;
    [|vm_compute in G; discriminate].
  destruct (competitors (columns sample) (narrowed g) (pick_slot input_country_only) 0
              (slider 2 10 (pick_num_comp input_country_only))) as [views|e] eqn:S.
  - exists g, views.
    apply (insufficient_selection_halts no_images sample input_country_only g views).
    + reflexivity.
    + exact G.
    + exact S.
    + vm_compute in G. inversion G; subst g. vm_compute in S.
      inversion S; subst views. vm_compute. lia.
  - vm_compute in G. inversion G; subst g. vm_compute in S. discriminate.
Defined.

(** ** Reading a cell *)

Lemma iat0_absent (row : DataFrame) (c : string) :
  ~ In c (columns row) -> iat0 row c = Raise KeyError.
Proof.
  intros H. unfold iat0. apply index_of_None in H. now rewrite H.
Qed.

Lemma get_val_missing (s : selection) (c : string) :
  empty (row s) = true \/ ~ In c (columns (row s)) \/ iat0 (row s) c = Ok None ->
  get_val s c = DASH.
Proof.
  unfold get_val, iat0. intros [H|[H|H]].
  - now rewrite H.
  - apply has_col_false in H. rewrite H. simpl. now rewrite orb_true_r.
  - destruct (empty (row s) || negb (has_col (columns (row s)) c)); [reflexivity|].
    destruct (index_of c (columns (row s))); [|reflexivity].
    inversion H as [H1]. now rewrite H1.
Qed.

Lemma get_val_present (s : selection) (c : string) (v : value) :
  empty (row s) = false -> iat0 (row s) c = Ok (Some v) -> get_val s c = v.
Proof.
  unfold get_val, iat0. intros He H. rewrite He. simpl.
  destruct (index_of c (columns (row s))) as [j|] eqn:Ej; [|discriminate].
  assert (Hc : has_col (columns (row s)) c = true).
  { apply has_col_In. now apply (index_of_Some_In _ _ _ Ej). }
  rewrite Hc. simpl. inversion H as [H1]. now rewrite H1.
Qed.

(** C6.  For every selection and column name, [get_val] is the cell of
    the selection's row in that column when the row is matched, the column
    is present and the cell is not missing, and the sentinel "-" in every
    other case; the sentinel is not the empty string, so an empty-text cell
    is returned as itself and stays distinct from a missing one. *)
Theorem get_val_cell_or_missing (s : selection) (c : string) :
  (forall v, empty (row s) = false -> iat0 (row s) c = Ok (Some v) ->
             get_val s c = v)
  /\ (empty (row s) = true \/ ~ In c (columns (row s)) \/ iat0 (row s) c = Ok None ->
      get_val s c = DASH)
  /\ (empty (row s) = false /\ (exists v, iat0 (row s) c = Ok (Some v))
      \/ empty (row s) = true \/ ~ In c (columns (row s)) \/ iat0 (row s) c = Ok None)
  /\ DASH <> VStr ""
  /\ (empty (row s) = false -> iat0 (row s) c = Ok (Some (VStr "")) ->
      get_val s c = VStr "" /\ get_val s c <> DASH).
Proof.
  split; [intros v; apply get_val_present|].
  split; [apply get_val_missing|].
  split.
  - destruct (empty (row s)) eqn:He; [auto|].
    unfold iat0. destruct (index_of c (columns (row s))) as [j|] eqn:Ej.
    + destruct (cell_at j (hd [] (rows (row s)))) as [v|]; [left; eauto | auto].
    + right. right. left. now apply index_of_None.
  - split; [discriminate|]. intros He H.
    rewrite (get_val_present _ _ _ He H). split; [reflexivity | discriminate].
Qed.

(** C10.  A matched row whose cell is the text "-" reads exactly as a
    missing value: [get_val] returns the sentinel, the same as for an
    unmatched row, an absent column or a missing cell, and the table cell
    drawn for it is the written "-" in every column, the image columns
    included, whatever the asset store holds. *)
Theorem dash_cell_reads_as_missing (io : string -> bool) (cols : list string)
    (s s' : selection) (c : string) :
  empty (row s) = false ->
  iat0 (row s) c = Ok (Some DASH) ->
  empty (row s') = true \/ ~ In c (columns (row s')) \/ iat0 (row s') c = Ok None ->
  get_val s c = DASH
  /\ get_val s c = get_val s' c
  /\ render_cell io cols s c = Write DASH
  /\ render_cell io cols s c = render_cell io cols s' c.
Proof.
  intros He H H'.
  pose proof (get_val_present _ _ _ He H) as V.
  pose proof (get_val_missing _ _ H') as V'.
  assert (R : forall t, get_val t c = DASH -> render_cell io cols t c = Write DASH).
  { intros t Ht. unfold render_cell. rewrite Ht. simpl.
    now destruct (_ || _). }
  repeat split.
  - exact V.
  - now rewrite V, V'.
  - now apply R.
  - now rewrite (R s V), (R s' V').
Qed.

(** A logo cell holding "-" against an unmatched slot, with every asset
    present in the store. *)
Lemma dash_cell_reads_as_missing_witness :
  get_val dash_logo "Brand logo" = DASH
  /\ get_val dash_logo "Brand logo" = get_val unmatched "Brand logo"
  /\ render_cell (fun _ => true) (columns (row dash_logo)) dash_logo "Brand logo"
     = Write DASH
  /\ render_cell (fun _ => true) (columns (row dash_logo)) dash_logo "Brand logo"
     = render_cell (fun _ => true) (columns (row dash_logo)) unmatched "Brand logo".
Proof.
  apply (dash_cell_reads_as_missing (fun _ => true) (columns (row dash_logo))
           dash_logo unmatched "Brand logo").
  - reflexivity.
  - reflexivity.
  - left. reflexivity.
Defined.

(** ** The parameter list *)

Lemma variants_disjoint (r1 r2 : role) (c : string) :
  r1 <> r2 -> In c (variants r1) -> In c (variants r2) -> False.
Proof.
  intros Hne H1 H2.
  destruct r1, r2; try (now elim Hne); simpl in H1, H2;
    repeat (destruct H1 as [H1|H1];
            [subst c; repeat (destruct H2 as [H2|H2]; [discriminate H2|]); exact H2|]);
    exact H1.
Qed.

Lemma In_resolved (cols : list string) (rs : list role) (c : string) :
  In c (resolved cols rs) <-> exists r, In r rs /\ resolve cols r = Some c.
Proof.
  unfold resolved. rewrite in_flat_map. split; intros [r [Hr H]]; exists r;
    (split; [assumption|]).
  - destruct (resolve cols r) as [x|]; simpl in H; [|contradiction].
    destruct H as [H|[]]. now subst.
  - rewrite H. now left.
Qed.

Lemma NoDup_resolved (cols : list string) (rs : list role) :
  NoDup rs -> NoDup (resolved cols rs).
Proof.
  induction 1 as [|r rs Hnotin Hnd IH]; simpl; [constructor|].
  destruct (resolve cols r) as [c|] eqn:E; simpl; [|assumption].
  constructor; [|assumption].
  intros Hin. apply In_resolved in Hin. destruct Hin as [r' [Hr' E']].
  apply (variants_disjoint r r' c).
  - intros K. subst. contradiction.
  - now apply (get_col_In_options cols).
  - now apply (get_col_In_options cols).
Qed.

Lemma In_preserve_cols (cols : list string) (o : option string) :
  In o (preserve_cols cols) <-> exists r, In r all_roles /\ resolve cols r = o.
Proof.
  unfold preserve_cols, all_roles, col_quarter, col_year, col_region, col_country,
    col_country_flag, col_brand, col_brand_logo. simpl. split.
  - intros H. repeat (destruct H as [H|H]; [eexists; split; [|exact H]; tauto|]).
    contradiction.
  - intros [r [Hr H]]. subst o.
    repeat (destruct Hr as [Hr|Hr]; [subst r; tauto|]). contradiction.
Qed.

Lemma opt_string_eqb_eq (a b : option string) : opt_string_eqb a b = true <-> a = b.
Proof.
  destruct a as [s|], b as [t|]; simpl; split; intro H;
    try discriminate; try reflexivity.
  - apply String.eqb_eq in H. now subst.
  - inversion H. apply String.eqb_refl.
Qed.

Lemma In_remaining_cols (cols : list string) (c : string) :
  In c (remaining_cols cols) <-> In c cols /\ ~ In c (resolved cols all_roles).
Proof.
  unfold remaining_cols. rewrite filter_In, negb_true_iff.
  split; intros [H1 H2]; (split; [assumption|]).
  - intros Hin. apply In_resolved in Hin. destruct Hin as [r [Hr E]].
    assert (K : existsb (opt_string_eqb (Some c)) (preserve_cols cols) = true).
    { apply existsb_exists. exists (Some c). split.
      - apply In_preserve_cols. now exists r.
      - now apply opt_string_eqb_eq. }
    congruence.
  - destruct (existsb _ (preserve_cols cols)) eqn:K; [|reflexivity].
    exfalso. apply H2. apply existsb_exists in K. destruct K as [o [Ho Heq]].
    apply opt_string_eqb_eq in Heq. subst o.
    apply In_preserve_cols in Ho. destruct Ho as [r [Hr E]].
    apply In_resolved. now exists r.
Qed.

Lemma ordered_params_columns (cols : list string) :
  map fst (ordered_params cols)
  = (resolved cols leading_roles ++ remaining_cols cols)%list.
Proof.
  unfold ordered_params, resolved, leading_roles, col_country, col_country_flag,
    col_brand, col_brand_logo. simpl.
  rewrite !map_app, map_map. simpl. rewrite map_id, app_nil_r, <- !app_assoc.
  destruct (resolve cols Country), (resolve cols CountryFlagAsset),
    (resolve cols Brand), (resolve cols BrandLogoAsset); reflexivity.
Qed.

(** C5, as amended.  On a table with unique column names, the parameter
    list starts with the columns the roles Country, CountryFlagAsset,
    Brand, BrandLogoAsset resolved to, in that order (an unresolved role is
    skipped), followed by the table columns that no role (Quarter, Year,
    Region included) resolved to, in their table order; no column appears
    twice. *)
Theorem ordered_params_layout (cols : list string) :
  NoDup cols ->
  map fst (ordered_params cols)
  = (resolved cols leading_roles ++ remaining_cols cols)%list
  /\ remaining_cols cols
     = filter (fun c => negb (has_col (resolved cols all_roles) c)) cols
  /\ (forall c, In c (remaining_cols cols) <->
                In c cols /\ ~ In c (resolved cols all_roles))
  /\ NoDup (map fst (ordered_params cols)).
Proof.
  intros Hnd. split; [apply ordered_params_columns|].
  split.
  { unfold remaining_cols. apply filter_ext_in. intros c Hc. f_equal.
    destruct (has_col (resolved cols all_roles) c) eqn:K.
    - apply has_col_In, In_resolved in K. destruct K as [r [Hr E]].
      apply existsb_exists. exists (Some c). split.
      + apply In_preserve_cols. now exists r.
      + now apply opt_string_eqb_eq.
    - apply has_col_false in K.
      destruct (existsb _ (preserve_cols cols)) eqn:K'; [|reflexivity].
      exfalso. apply K. apply existsb_exists in K'. destruct K' as [o [Ho Heq]].
      apply opt_string_eqb_eq in Heq. subst o.
      apply In_preserve_cols in Ho. destruct Ho as [r [Hr E]].
      apply In_resolved. now exists r. }
  split; [apply In_remaining_cols|].
  rewrite ordered_params_columns. apply NoDup_app.
  - apply NoDup_resolved. unfold leading_roles.
    repeat constructor; simpl; intuition discriminate.
  - unfold remaining_cols. now apply NoDup_filter.
  - intros c Hc Hr. apply In_remaining_cols in Hr. destruct Hr as [_ Hr].
    apply Hr. apply In_resolved in Hc. destruct Hc as [r [Hin E]].
    apply In_resolved. exists r. split; [|assumption].
    unfold leading_roles, all_roles in *. simpl in *. tauto.
Qed.

(** On the sample header: Country and Brand lead, Price follows. *)
Lemma ordered_params_layout_witness :
  map fst (ordered_params (columns sample))
  = (resolved (columns sample) leading_roles ++ remaining_cols (columns sample))%list
  /\ remaining_cols (columns sample)
     = filter (fun c => negb (has_col (resolved (columns sample) all_roles) c))
         (columns sample)
  /\ (forall c, In c (remaining_cols (columns sample)) <->
                In c (columns sample) /\ ~ In c (resolved (columns sample) all_roles))
  /\ NoDup (map fst (ordered_params (columns sample))).
Proof.
  apply (ordered_params_layout (columns sample)).
  simpl. repeat constructor; simpl; intuition discriminate.
Defined.

(** C5 as stated fails: the Year column of the sample table is none of the
    four leading columns, yet it is not among the parameters, so the list is
    not the leading columns followed by all the other table columns. *)
Lemma year_column_dropped_counterexample :
  In "Year" (columns sample)
  /\ ~ In "Year" (resolved (columns sample) leading_roles)
  /\ ~ In "Year" (map fst (ordered_params (columns sample)))
  /\ map fst (ordered_params (columns sample))
     <> (resolved (columns sample) leading_roles
         ++ filter (fun c => negb (has_col (resolved (columns sample) leading_roles) c))
              (columns sample))%list.
Proof.
  repeat split.
  - simpl. tauto.
  - vm_compute. intuition discriminate.
  - vm_compute. intuition discriminate.
  - vm_compute. discriminate.
Qed.

(** ** The export frame *)

(** A slot that is exported has a chosen brand, so its label is that brand:
    the generated "Competitor_N" label never reaches the export. *)
Lemma matched_label_is_brand (io : string -> bool) (df : DataFrame)
    (u : user_input) (p : page) (i k : nat) (v : slot_view) :
  app io df u = Ok (Page p) ->
  nth_error (sidebar_slots p) i = Some v ->
  empty (row (chosen v)) = false ->
  label k (chosen v) = show_value (brand (chosen v)).
Proof.
  intros H Hi He. pose proof (page_slot _ _ _ _ _ _ H Hi) as Hv.
  destruct (slot_rows _ _ _ Hv) as [K _]. unfold label.
  destruct (value_eqb (brand (chosen v)) CHOOSE) eqn:Eb; [|reflexivity].
  apply value_eqb_eq in Eb. rewrite (K Eb) in He. discriminate.
Qed.

(** C2 fails on the code.  On the sample table with both slots on USA and
    Acme, for the years 2023 and 2024, both rows are matched and both are
    exported under the label "Acme": every field name of the export occurs
    twice. *)
Theorem export_same_brand_collides :
  exists p c,
    app no_images sample input_same_brand = Ok (Page p) /\
    main p = Compared c /\
    map (fun v => rows (row (chosen v))) (sidebar_slots p)
    = [ [[Some (VStr "USA"); Some (VStr "Acme"); Some (VNum 2023); Some (VNum 10)]];
        [[Some (VStr "USA"); Some (VStr "Acme"); Some (VNum 2024); Some (VNum 12)]] ] /\
    columns (export c)
    = ["Acme - Country"; "Acme - Brand"; "Acme - Year"; "Acme - Price";
       "Acme - Country"; "Acme - Brand"; "Acme - Year"; "Acme - Price"] /\
    ~ NoDup (columns (export c)).
Proof.
  do 2 eexists. split; [vm_compute; reflexivity|].
  split; [reflexivity|]. split; [reflexivity|]. split; [reflexivity|].
  simpl. intros K. inversion K as [|x l Hnotin _]. apply Hnotin. simpl. tauto.
Qed.

(** ** The script does not fail on a well-typed table *)

Lemma index_of_lt (c : string) (cols : list string) (j : nat) :
  index_of c cols = Some j -> j < List.length cols.
Proof.
  revert j. induction cols as [|x xs IH]; simpl; intros j H; [discriminate|].
  destruct (String.eqb c x); [inversion H; lia|].
  destruct (index_of c xs) as [k|]; [|discriminate].
  inversion H. specialize (IH k eq_refl). lia.
Qed.

Lemma homogeneous_incl (l l' : list value) :
  homogeneous l = true -> incl l' l -> homogeneous l' = true.
Proof.
  intros H Hi. apply homogeneous_spec. intros a b Ha Hb.
  apply (proj1 (homogeneous_spec l) H); now apply Hi.
Qed.

Lemma well_typed_column (df : DataFrame) (c : string) (j : nat) :
  well_typed df = true -> index_of c (columns df) = Some j ->
  homogeneous (dropna (map (cell_at j) (rows df))) = true.
Proof.
  unfold well_typed. rewrite forallb_forall. intros H Hj. apply H.
  apply in_seq. apply index_of_lt in Hj. lia.
Qed.

Lemma sorted_unique_total (df : DataFrame) (c : string) :
  well_typed df = true -> In c (columns df) ->
  exists o, sorted_unique df c = Ok o.
Proof.
  intros Hw Hc. destruct (index_of_In _ _ Hc) as [j Hj].
  unfold sorted_unique, column. rewrite Hj. simpl. unfold sorted.
  rewrite (homogeneous_incl (dropna (map (cell_at j) (rows df)))).
  - eexists. reflexivity.
  - now apply (well_typed_column df c).
  - intros v Hv. now apply In_unique.
Qed.

Lemma uniques_total (d : DataFrame) (cols : list string) (r : role) :
  well_typed d = true -> columns d = cols ->
  exists o, uniques d (resolve cols r) = Ok o.
Proof.
  intros Hw Hc. destruct (resolve cols r) as [c|] eqn:E; simpl.
  - apply sorted_unique_total; [assumption|]. rewrite Hc.
    now apply (get_col_In_cols _ (variants r)).
  - now exists [].
Qed.

Lemma well_typed_narrow (df d : DataFrame) (col : option string) (ph sel : value) :
  narrow df col ph sel = Ok d -> well_typed df = true -> well_typed d = true.
Proof.
  intros H. destruct (narrow_keeps _ _ _ _ _ H) as [Hc Hr].
  unfold well_typed. rewrite Hc, Hr, !forallb_forall. intros Hw j Hj.
  apply (homogeneous_incl _ _ (Hw j Hj)).
  intros v. rewrite !In_dropna, !in_map_iff.
  intros [r [H1 H2]]. exists r. split; [assumption|].
  apply filter_In in H2. tauto.
Qed.

Lemma selectbox_In (ph : value) (o : list value) (pick : nat) :
  In (selectbox (ph :: o) pick) (ph :: o).
Proof.
  unfold selectbox. destruct (nth_error (ph :: o) pick) as [v|] eqn:E.
  - now apply (nth_error_In _ pick).
  - now left.
Qed.

(** A selection other than the placeholder comes from a non-empty option
    list, hence from a resolved column of the table: the filter cannot
    raise. *)
Lemma filter_eq_total (d0 d : DataFrame) (cols : list string) (r : role)
    (ph : value) (o : list value) (pick : nat) :
  uniques d0 (resolve cols r) = Ok o ->
  columns d = cols ->
  selectbox (ph :: o) pick <> ph ->
  exists d', filter_eq d (resolve cols r) (selectbox (ph :: o) pick) = Ok d'.
Proof.
  intros Hu Hc Hne. destruct (resolve cols r) as [c|] eqn:E.
  - apply get_col_In_cols in E. rewrite <- Hc in E.
    destruct (index_of_In _ _ E) as [j Hj].
    unfold filter_eq. rewrite Hj. eexists. reflexivity.
  - simpl in Hu. inversion Hu; subst o. exfalso. apply Hne.
    destruct (selectbox_In ph [] pick) as [K|[]]. now symmetry.
Qed.

Lemma narrow_total (d0 d : DataFrame) (cols : list string) (r : role)
    (ph : value) (o : list value) (pick : nat) :
  uniques d0 (resolve cols r) = Ok o ->
  columns d = cols ->
  exists d', narrow d (resolve cols r) ph (selectbox (ph :: o) pick) = Ok d'.
Proof.
  intros Hu Hc. unfold narrow.
  destruct (value_eqb (selectbox (ph :: o) pick) ph) eqn:E; simpl.
  - now exists d.
  - apply value_eqb_neq in E. now apply (filter_eq_total d0).
Qed.

Lemma narrow_of_filter_eq (d d' : DataFrame) (col : option string) (ph sel : value) :
  sel <> ph -> filter_eq d col sel = Ok d' -> narrow d col ph sel = Ok d'.
Proof.
  intros Hne H. unfold narrow. now rewrite (proj2 (value_eqb_neq _ _) Hne).
Qed.

Lemma global_filters_total (df : DataFrame) (p : global_picks) :
  well_typed df = true ->
  exists g, global_filters df p = Ok g
            /\ well_typed (narrowed g) = true
            /\ columns (narrowed g) = columns df.
Proof.
  intros Hw. unfold global_filters, col_year, col_quarter, col_region, col_country.
  destruct (uniques_total df (columns df) Year Hw eq_refl) as [y0 Ey0].
  destruct (uniques_total df (columns df) Quarter Hw eq_refl) as [q0 Eq0].
  destruct (uniques_total df (columns df) Region Hw eq_refl) as [r0 Er0].
  destruct (uniques_total df (columns df) Country Hw eq_refl) as [c0 Ec0].
  rewrite Ey0, Eq0, Er0, Ec0. cbn [bind].
  match goal with |- context [bind (if ?b then ?X else ?Y) _] =>
    assert (S1 : exists df1 q1 r1 c1,
               (if b then X else Y) = Ok (df1, q1, r1, c1)
               /\ well_typed df1 = true /\ columns df1 = columns df
               /\ uniques df1 (resolve (columns df) Quarter) = Ok q1
               /\ uniques df1 (resolve (columns df) Region) = Ok r1)
  end.
  { destruct (value_eqb (selectbox (ALL :: y0) (pick_global_year p)) ALL) eqn:E;
      cbn [negb].
    - exists df, q0, r0, c0. auto.
    - apply value_eqb_neq in E.
      destruct (filter_eq_total df df (columns df) Year ALL y0 _ Ey0 eq_refl E)
        as [df1 F1].
      pose proof (narrow_of_filter_eq _ _ _ _ _ E F1) as N1.
      pose proof (well_typed_narrow _ _ _ _ _ N1 Hw) as W1.
      destruct (narrow_keeps _ _ _ _ _ N1) as [C1 _].
      destruct (uniques_total df1 (columns df) Quarter W1 C1) as [q1 Eq1].
      destruct (uniques_total df1 (columns df) Region W1 C1) as [r1 Er1].
      destruct (uniques_total df1 (columns df) Country W1 C1) as [c1 Ec1].
      rewrite F1. cbn [bind]. rewrite Eq1, Er1, Ec1. cbn [bind].
      exists df1, q1, r1, c1. auto. }
  destruct S1 as (df1 & q1 & r1 & c1 & E1 & W1 & C1 & Uq1 & Ur1).
  rewrite E1. cbn [bind].
  match goal with |- context [bind (if ?b then ?X else ?Y) _] =>
    assert (S2 : exists df2 r2 c2,
               (if b then X else Y) = Ok (df2, r2, c2)
               /\ well_typed df2 = true /\ columns df2 = columns df
               /\ uniques df2 (resolve (columns df) Region) = Ok r2)
  end.
  { destruct (value_eqb (selectbox (ALL :: q1) (pick_global_quarter p)) ALL) eqn:E;
      cbn [negb].
    - exists df1, r1, c1. auto.
    - apply value_eqb_neq in E.
      destruct (filter_eq_total df1 df1 (columns df) Quarter ALL q1 _ Uq1 C1 E)
        as [df2 F2].
      pose proof (narrow_of_filter_eq _ _ _ _ _ E F2) as N2.
      pose proof (well_typed_narrow _ _ _ _ _ N2 W1) as W2.
      destruct (narrow_keeps _ _ _ _ _ N2) as [C2 _]. rewrite C1 in C2.
      destruct (uniques_total df2 (columns df) Region W2 C2) as [r2 Er2].
      destruct (uniques_total df2 (columns df) Country W2 C2) as [c2 Ec2].
      rewrite F2. cbn [bind]. rewrite Er2, Ec2. cbn [bind].
      exists df2, r2, c2. auto. }
  destruct S2 as (df2 & r2 & c2 & E2 & W2 & C2 & Ur2).
  rewrite E2. cbn [bind].
  match goal with |- context [bind (if ?b then ?X else ?Y) _] =>
    assert (S3 : exists df3 c3,
               (if b then X else Y) = Ok (df3, c3)
               /\ well_typed df3 = true /\ columns df3 = columns df)
  end.
  { destruct (value_eqb (selectbox (ALL :: r2) (pick_global_region p)) ALL) eqn:E;
      cbn [negb].
    - exists df2, c2. auto.
    - apply value_eqb_neq in E.
      destruct (filter_eq_total df2 df2 (columns df) Region ALL r2 _ Ur2 C2 E)
        as [df3 F3].
      pose proof (narrow_of_filter_eq _ _ _ _ _ E F3) as N3.
      pose proof (well_typed_narrow _ _ _ _ _ N3 W2) as W3.
      destruct (narrow_keeps _ _ _ _ _ N3) as [C3 _]. rewrite C2 in C3.
      destruct (uniques_total df3 (columns df) Country W3 C3) as [c3 Ec3].
      rewrite F3. cbn [bind]. rewrite Ec3. cbn [bind].
      exists df3, c3. auto. }
  destruct S3 as (df3 & c3 & E3 & W3 & C3).
  rewrite E3. cbn [bind]. eexists. split; [reflexivity|]. simpl. auto.
Qed.

Lemma any_filter_total (d : DataFrame) (cols : list string) (r : role) (pick : nat) :
  well_typed d = true -> columns d = cols ->
  exists o sel d', any_filter (resolve cols r) d pick = Ok (o, sel, d')
                   /\ well_typed d' = true /\ columns d' = cols.
Proof.
  intros Hw Hc. destruct (uniques_total d cols r Hw Hc) as [vs Evs].
  destruct (narrow_total d d cols r ANY vs pick Evs Hc) as [d' N].
  pose proof (well_typed_narrow _ _ _ _ _ N Hw) as W'.
  destruct (narrow_keeps _ _ _ _ _ N) as [C' _]. rewrite Hc in C'.
  unfold any_filter. destruct (resolve cols r) as [c|] eqn:E.
  - simpl in Evs. rewrite Evs. cbn [bind]. rewrite N. cbn [bind].
    do 3 eexists. split; [reflexivity | auto].
  - exists None, None, d. auto.
Qed.

Lemma chosen_row_ok (d0 d : DataFrame) (cols : list string) (bs : list value)
    (pick : nat) :
  uniques d0 (resolve cols Brand) = Ok bs -> columns d = cols ->
  exists r, chosen_row cols d (selectbox (CHOOSE :: bs) pick) = Ok r.
Proof.
  intros Hu Hc. unfold chosen_row, col_brand.
  destruct (value_eqb (selectbox (CHOOSE :: bs) pick) CHOOSE) eqn:E; cbn [negb].
  - now exists empty_frame.
  - apply value_eqb_neq in E.
    destruct (filter_eq_total d0 d cols Brand CHOOSE bs pick Hu Hc E) as [sub F].
    rewrite F. cbn [bind]. eexists. reflexivity.
Qed.

Lemma competitor_total (d : DataFrame) (p : slot_picks) :
  well_typed d = true -> exists v, competitor (columns d) d p = Ok v.
Proof.
  intros Hw. unfold competitor, col_country, col_brand, col_year, col_quarter.
  destruct (uniques_total d (columns d) Country Hw eq_refl) as [cs Ecs].
  rewrite Ecs. cbn [bind].
  destruct (narrow_total d d (columns d) Country CHOOSE cs (pick_country p) Ecs eq_refl)
    as [d1 N1].
  rewrite N1. cbn [bind].
  pose proof (well_typed_narrow _ _ _ _ _ N1 Hw) as W1.
  destruct (narrow_keeps _ _ _ _ _ N1) as [C1 _].
  destruct (uniques_total d1 (columns d) Brand W1 C1) as [bs Ebs].
  rewrite Ebs. cbn [bind].
  destruct (any_filter_total d1 (columns d) Year (pick_year p) W1 C1)
    as (yo & sy & d2 & EY & W2 & C2).
  rewrite EY. cbn [bind].
  destruct (any_filter_total d2 (columns d) Quarter (pick_quarter p) W2 C2)
    as (qo & sq & d3 & EQ & W3 & C3).
  rewrite EQ. cbn [bind].
  destruct (chosen_row_ok d1 d3 (columns d) bs (pick_brand p) Ebs C3) as [r R].
  rewrite R. cbn [bind]. eexists. reflexivity.
Qed.

Lemma competitors_total (d : DataFrame) (picks : nat -> slot_picks) (n i : nat) :
  well_typed d = true -> exists views, competitors (columns d) d picks i n = Ok views.
Proof.
  intros Hw. revert i. induction n as [|n IH]; intros i; simpl.
  - now exists [].
  - destruct (competitor_total d (picks i) Hw) as [v Ev]. rewrite Ev. cbn [bind].
    destruct (IH (S i)) as [vs Evs]. rewrite Evs. cbn [bind].
    eexists. reflexivity.
Qed.

(** A matched row carries the header of the table it was chosen from. *)
Lemma matched_row_columns (d : DataFrame) (p : slot_picks) (v : slot_view) :
  competitor (columns d) d p = Ok v ->
  empty (row (chosen v)) = false ->
  columns (row (chosen v)) = columns d.
Proof.
  intros H He. destruct (slot_rows _ _ _ H) as [K1 K2].
  destruct (value_eqb (brand (chosen v)) CHOOSE) eqn:Eb.
  - apply value_eqb_eq in Eb. rewrite (K1 Eb) in He. discriminate.
  - apply value_eqb_neq in Eb. destruct (K2 Eb) as [_ K]. apply K.
    intros Hr. unfold empty in He. rewrite Hr in He.
    now destruct (columns (row (chosen v))).
Qed.

Lemma header_image_total (io : string -> bool) (cols : list string) (s : selection)
    (r : role) (fallback : string) :
  (empty (row s) = false -> columns (row s) = cols) ->
  exists w, header_image io s (resolve cols r) fallback = Ok w.
Proof.
  intros Hc. unfold header_image. destruct (empty (row s)); [now exists []|].
  destruct (resolve cols r) as [c|] eqn:E; [|now exists []].
  apply get_col_In_cols in E. rewrite <- (Hc eq_refl) in E.
  destruct (index_of_In _ _ E) as [j Hj]. unfold iat0. rewrite Hj. cbn [bind].
  destruct (cell_at j (hd [] (rows (row s)))); eexists; reflexivity.
Qed.

Lemma header_total (io : string -> bool) (cols : list string) (s : selection) :
  (empty (row s) = false -> columns (row s) = cols) ->
  exists w, header io cols s = Ok w.
Proof.
  intros Hc. unfold header, col_brand_logo, col_country_flag.
  destruct (header_image_total io cols s BrandLogoAsset "(logo not found)" Hc)
    as [logo L].
  rewrite L. cbn [bind].
  destruct (negb (value_eqb (country s) CHOOSE)).
  - destruct (header_image_total io cols s CountryFlagAsset "(flag not found)" Hc)
      as [flag F].
    rewrite F. cbn [bind]. eexists. reflexivity.
  - cbn [bind]. eexists. reflexivity.
Qed.

Lemma map_res_total (A B : Type) (f : A -> res B) (l : list A) :
  (forall a, In a l -> exists b, f a = Ok b) -> exists bs, map_res f l = Ok bs.
Proof.
  induction l as [|a t IH]; simpl; intros H; [now exists []|].
  destruct (H a (or_introl eq_refl)) as [b Eb]. rewrite Eb. cbn [bind].
  destruct IH as [bs Ebs]; [intros x Hx; apply H; now right|].
  rewrite Ebs. cbn [bind]. eexists. reflexivity.
Qed.

(** On a well-typed table the script runs to its end for every user input:
    it raises neither [KeyError] nor [TypeError], and it draws a page unless
    the table is empty. *)
Theorem app_total (io : string -> bool) (df : DataFrame) (u : user_input) :
  well_typed df = true ->
  exists o, app io df u = Ok o /\ (empty df = false -> exists p, o = Page p).
Proof.
  intros Hw. unfold app. destruct (empty df) eqn:He.
  - exists NoData. split; [reflexivity | discriminate].
  - destruct (global_filters_total df (pick_global u) Hw) as (g & G & Wg & Cg).
    rewrite G. cbn [bind].
    destruct (competitors_total (narrowed g) (pick_slot u)
                (slider 2 10 (pick_num_comp u)) 0 Wg) as [views V].
    rewrite Cg in V. rewrite V. cbn [bind].
    destruct (Nat.ltb _ 2).
    + eexists. split; [reflexivity | eauto].
    + destruct (map_res_total _ _ (header io (columns df)) (map chosen views))
        as [hs Hs].
      { intros s Hs. apply in_map_iff in Hs. destruct Hs as [v [Hv Hin]]. subst s.
        apply header_total. intros Hne.
        destruct (competitors_In _ _ _ _ _ _ v V Hin) as [k Hk].
        rewrite <- Cg in Hk |- *. now apply (matched_row_columns _ _ _ Hk). }
      rewrite Hs. cbn [bind]. eexists. split; [reflexivity | eauto].
Qed.

Example sample_well_typed : well_typed sample = true.
Proof. reflexivity. Qed.

(** On the sample table the run of two slots ends with a page. *)
Lemma app_total_witness :
  exists o, app no_images sample input_brand_only = Ok o
            /\ (empty sample = false -> exists p, o = Page p).
Proof.
  apply (app_total no_images sample input_brand_only). reflexivity.
Defined.

(** ** The only exception is a [TypeError] *)

Lemma only_type_error_Ok (A : Type) (a : A) : only_type_error (Ok a).
Proof. intros e H. discriminate. Qed.

Lemma only_type_error_of_Ok (A : Type) (m : res A) :
  (exists a, m = Ok a) -> only_type_error m.
Proof. intros [a Ha] e H. congruence. Qed.

Lemma only_type_error_bind (A B : Type) (m : res A) (k : A -> res B) :
  only_type_error m -> (forall a, m = Ok a -> only_type_error (k a)) ->
  only_type_error (bind m k).
Proof.
  intros Hm Hk e H. destruct m as [a|e']; simpl in H.
  - now apply (Hk a eq_refl).
  - inversion H; subst. now apply Hm.
Qed.

Lemma only_type_error_sorted (l : list value) : only_type_error (sorted l).
Proof.
  intros e. unfold sorted. destruct (homogeneous l); intros H; [discriminate|].
  now inversion H.
Qed.

Lemma only_type_error_uniques (d : DataFrame) (cols : list string) (r : role) :
  columns d = cols -> only_type_error (uniques d (resolve cols r)).
Proof.
  intros Hc. destruct (resolve cols r) as [c|] eqn:E; simpl;
    [|apply only_type_error_Ok].
  apply get_col_In_cols in E. rewrite <- Hc in E.
  destruct (index_of_In _ _ E) as [j Hj].
  unfold sorted_unique, column. rewrite Hj. simpl. apply only_type_error_sorted.
Qed.

Lemma filter_eq_columns (d d' : DataFrame) (col : option string) (v : value) :
  filter_eq d col v = Ok d' -> columns d' = columns d.
Proof.
  intros H. apply filter_eq_Ok in H. destruct H as (c & j & _ & _ & H).
  now subst d'.
Qed.

Lemma any_filter_columns (col : option string) (d d' : DataFrame) (pick : nat)
    (o : option (list value)) (sel : option value) :
  any_filter col d pick = Ok (o, sel, d') -> columns d' = columns d.
Proof.
  unfold any_filter. destruct col as [c|].
  - intros H. bind_inv H. bind_inv H. inversion H; subst.
    now destruct (narrow_keeps _ _ _ _ _ E0).
  - intros H. now inversion H.
Qed.

Lemma only_type_error_any_filter (d : DataFrame) (cols : list string) (r : role)
    (pick : nat) :
  columns d = cols -> only_type_error (any_filter (resolve cols r) d pick).
Proof.
  intros Hc. pose proof (only_type_error_uniques d cols r Hc) as HU.
  pose proof (narrow_total d d cols r ANY) as HN.
  unfold any_filter. destruct (resolve cols r) as [c|]; [|apply only_type_error_Ok].
  simpl in HU. apply only_type_error_bind; [exact HU|]. intros vs Evs.
  destruct (HN vs pick Evs Hc) as [d' N]. rewrite N. cbn [bind].
  apply only_type_error_Ok.
Qed.

Lemma only_type_error_competitor (d : DataFrame) (p : slot_picks) :
  only_type_error (competitor (columns d) d p).
Proof.
  unfold competitor, col_country, col_brand, col_year, col_quarter.
  apply only_type_error_bind; [now apply only_type_error_uniques|].
  intros cs Ecs.
  destruct (narrow_total d d (columns d) Country CHOOSE cs (pick_country p) Ecs eq_refl)
    as [d1 N1].
  rewrite N1. cbn [bind]. destruct (narrow_keeps _ _ _ _ _ N1) as [C1 _].
  apply only_type_error_bind; [now apply only_type_error_uniques|].
  intros bs Ebs.
  apply only_type_error_bind; [now apply only_type_error_any_filter|].
  intros [[yo sy] d2] EY. apply any_filter_columns in EY. rewrite C1 in EY.
  apply only_type_error_bind; [now apply only_type_error_any_filter|].
  intros [[qo sq] d3] EQ. apply any_filter_columns in EQ. rewrite EY in EQ.
  destruct (chosen_row_ok d1 d3 (columns d) bs (pick_brand p) Ebs EQ) as [r R].
  rewrite R. cbn [bind]. apply only_type_error_Ok.
Qed.

Lemma only_type_error_competitors (d : DataFrame) (picks : nat -> slot_picks)
    (n i : nat) :
  only_type_error (competitors (columns d) d picks i n).
Proof.
  revert i. induction n as [|n IH]; intros i; simpl; [apply only_type_error_Ok|].
  apply only_type_error_bind; [apply only_type_error_competitor|]. intros v _.
  apply only_type_error_bind; [apply IH|]. intros vs _. apply only_type_error_Ok.
Qed.

Lemma only_type_error_global_filters (df : DataFrame) (p : global_picks) :
  only_type_error (global_filters df p).
Proof.
  unfold global_filters, col_year, col_quarter, col_region, col_country.
  apply only_type_error_bind; [now apply only_type_error_uniques|]. intros y0 Ey0.
  apply only_type_error_bind; [now apply only_type_error_uniques|]. intros q0 Eq0.
  apply only_type_error_bind; [now apply only_type_error_uniques|]. intros r0 Er0.
  apply only_type_error_bind; [now apply only_type_error_uniques|]. intros c0 Ec0.
  apply only_type_error_bind.
  { destruct (value_eqb (selectbox (ALL :: y0) (pick_global_year p)) ALL) eqn:E;
      cbn [negb]; [apply only_type_error_Ok|].
    apply value_eqb_neq in E.
    destruct (filter_eq_total df df (columns df) Year ALL y0 _ Ey0 eq_refl E)
      as [df1 F1].
    rewrite F1. cbn [bind]. apply filter_eq_columns in F1.
    apply only_type_error_bind; [now apply only_type_error_uniques|]. intros q _.
    apply only_type_error_bind; [now apply only_type_error_uniques|]. intros r _.
    apply only_type_error_bind; [now apply only_type_error_uniques|]. intros c _.
    apply only_type_error_Ok. }
  intros [[[df1 q1] r1] c1] E1.
  assert (A1 : columns df1 = columns df
               /\ (exists d0, uniques d0 (resolve (columns df) Quarter) = Ok q1)
               /\ (exists d0, uniques d0 (resolve (columns df) Region) = Ok r1)).
  { destruct (negb (value_eqb (selectbox (ALL :: y0) (pick_global_year p)) ALL)).
    - bind_inv E1. bind_inv E1. bind_inv E1. bind_inv E1.
      inversion E1; subst. apply filter_eq_columns in E. eauto.
    - inversion E1; subst. eauto. }
  destruct A1 as (C1 & [dq Uq1] & [dr Ur1]).
  apply only_type_error_bind.
  { destruct (value_eqb (selectbox (ALL :: q1) (pick_global_quarter p)) ALL) eqn:E;
      cbn [negb]; [apply only_type_error_Ok|].
    apply value_eqb_neq in E.
    destruct (filter_eq_total dq df1 (columns df) Quarter ALL q1 _ Uq1 C1 E)
      as [df2 F2].
    rewrite F2. cbn [bind]. apply filter_eq_columns in F2. rewrite C1 in F2.
    apply only_type_error_bind; [now apply only_type_error_uniques|]. intros r _.
    apply only_type_error_bind; [now apply only_type_error_uniques|]. intros c _.
    apply only_type_error_Ok. }
  intros [[df2 r2] c2] E2.
  assert (A2 : columns df2 = columns df
               /\ (exists d0, uniques d0 (resolve (columns df) Region) = Ok r2)).
  { destruct (negb (value_eqb (selectbox (ALL :: q1) (pick_global_quarter p)) ALL)).
    - bind_inv E2. bind_inv E2. bind_inv E2.
      inversion E2; subst. apply filter_eq_columns in E. rewrite C1 in E. eauto.
    - inversion E2; subst. eauto. }
  destruct A2 as (C2 & [dr2 Ur2]).
  apply only_type_error_bind.
  { destruct (value_eqb (selectbox (ALL :: r2) (pick_global_region p)) ALL) eqn:E;
      cbn [negb]; [apply only_type_error_Ok|].
    apply value_eqb_neq in E.
    destruct (filter_eq_total dr2 df2 (columns df) Region ALL r2 _ Ur2 C2 E)
      as [df3 F3].
    rewrite F3. cbn [bind]. apply filter_eq_columns in F3. rewrite C2 in F3.
    apply only_type_error_bind; [now apply only_type_error_uniques|]. intros c _.
    apply only_type_error_Ok. }
  intros [df3 c3] E3. apply only_type_error_Ok.
Qed.

(** X2.  Whatever the table and the user's picks, the script never looks
    up a column that is not there: if a run ends in an exception, the
    exception is the [TypeError] of sorting a column that mixes numbers with
    strings, never a [KeyError]. *)
Theorem app_only_type_error (io : string -> bool) (df : DataFrame)
    (u : user_input) (e : exn) :
  app io df u = Raise e -> e = TypeError.
Proof.
  revert e. change (only_type_error (app io df u)).
  unfold app. destruct (empty df); [apply only_type_error_Ok|].
  apply only_type_error_bind; [apply only_type_error_global_filters|].
  intros g G. destruct (global_rows _ _ _ G) as [Cg _]. rewrite <- Cg.
  apply only_type_error_bind; [apply only_type_error_competitors|].
  intros views V.
  destruct (Nat.ltb _ 2); [apply only_type_error_Ok|].
  destruct (map_res_total _ _ (header io (columns (narrowed g))) (map chosen views))
    as [hs Hs].
  { intros s Hin. apply in_map_iff in Hin. destruct Hin as [v [Hv Hin]]. subst s.
    apply header_total. intros Hne.
    destruct (competitors_In _ _ _ _ _ _ v V Hin) as [k Hk].
    now apply (matched_row_columns _ _ _ Hk). }
  rewrite Hs. cbn [bind]. apply only_type_error_Ok.
Qed.

(** On the table whose Year column mixes 2023 with "n/a" the run fails,
    with a [TypeError]. *)
Lemma app_only_type_error_witness :
  app no_images mixed_years input_brand_only = Raise TypeError
  /\ TypeError = TypeError.
Proof.
  assert (E : app no_images mixed_years input_brand_only = Raise TypeError)
    by (vm_compute; reflexivity).
  split; [exact E|].
  symmetry. exact (app_only_type_error no_images mixed_years input_brand_only
                     TypeError E).
Defined.

(** ** What an option list looks like *)

Lemma value_leb_total (a b : value) : value_leb a b = false -> value_leb b a = true.
Proof.
  destruct a as [s|n], b as [t|m]; simpl; intros H; try reflexivity;
    try discriminate.
  - destruct (String.leb_total s t) as [K|K]; congruence.
  - apply Z.leb_gt in H. apply Z.leb_le. lia.
Qed.

Lemma insert_sorted_HdRel (v a : value) (l : list value) :
  value_le a v -> HdRel value_le a l -> HdRel value_le a (insert_sorted v l).
Proof.
  intros Hav Hl. destruct l as [|x t]; simpl; [now constructor|].
  destruct (value_leb v x); constructor; [assumption|].
  now inversion Hl.
Qed.

Lemma insert_sorted_Sorted (v : value) (l : list value) :
  Sorted value_le l -> Sorted value_le (insert_sorted v l).
Proof.
  induction 1 as [|x t Hs IH Hhd]; simpl; [repeat constructor|].
  destruct (value_leb v x) eqn:E.
  - constructor; [now constructor|]. now constructor.
  - constructor; [assumption|].
    apply insert_sorted_HdRel; [|assumption]. now apply value_leb_total.
Qed.

Lemma sort_values_Sorted (l : list value) : Sorted value_le (sort_values l).
Proof.
  induction l as [|v t IH]; simpl; [constructor|]. now apply insert_sorted_Sorted.
Qed.

Lemma NoDup_insert_sorted (v : value) (l : list value) :
  ~ In v l -> NoDup l -> NoDup (insert_sorted v l).
Proof.
  induction l as [|x t IH]; simpl; intros Hv Hnd.
  - constructor; [intros [] | constructor].
  - destruct (value_leb v x); [now constructor|].
    inversion Hnd as [|y l' Hx Ht]; subst. constructor.
    + rewrite In_insert_sorted. intros [K|K]; [subst; apply Hv; now left | contradiction].
    + apply IH; [intros K; apply Hv; now right | assumption].
Qed.

Lemma NoDup_sort_values (l : list value) : NoDup l -> NoDup (sort_values l).
Proof.
  induction 1 as [|v t Hv Hnd IH]; simpl; [constructor|].
  apply NoDup_insert_sorted; [|assumption]. now rewrite In_sort_values.
Qed.

Lemma homogeneous_sort_values (l : list value) :
  homogeneous l = true -> homogeneous (sort_values l) = true.
Proof.
  intros H. apply (homogeneous_incl l); [assumption|].
  intros v Hv. now apply In_sort_values.
Qed.

(** X3.  Every list of values the script offers in a widget (the result
    of [sorted(df[col].dropna().unique())]) holds each non-missing value of
    the column exactly once, in ascending order, all of one kind; a role
    without a column offers nothing. *)
Theorem uniques_sorted_distinct (df : DataFrame) (col : option string)
    (o : list value) :
  uniques df col = Ok o ->
  NoDup o
  /\ Sorted value_le o
  /\ homogeneous o = true
  /\ (forall v, In v o <-> In v (available df col))
  /\ (forall v, In v o <->
                exists c j r, col = Some c /\ index_of c (columns df) = Some j
                              /\ In r (rows df) /\ cell_at j r = Some v)
  /\ (col = None -> o = []).
Proof.
  intros H. split; [|split; [|split; [|split; [|split]]]].
  - destruct col as [c|]; simpl in H; [|inversion H; constructor].
    unfold sorted_unique in H. bind_inv H. unfold sorted in H.
    destruct (homogeneous _); [|discriminate]. inversion H.
    apply NoDup_sort_values. apply NoDup_unique_acc.
  - destruct col as [c|]; simpl in H; [|inversion H; constructor].
    unfold sorted_unique in H. bind_inv H. unfold sorted in H.
    destruct (homogeneous _); [|discriminate]. inversion H.
    apply sort_values_Sorted.
  - destruct col as [c|]; simpl in H; [|inversion H; reflexivity].
    unfold sorted_unique in H. bind_inv H. unfold sorted in H.
    destruct (homogeneous _) eqn:Eh; [|discriminate]. inversion H.
    now apply homogeneous_sort_values.
  - now apply uniques_available.
  - intros v. destruct col as [c|]; simpl in H.
    + destruct (sorted_unique_In _ _ _ H) as [j [Hj Hv]]. rewrite Hv. split.
      * intros [r [H1 H2]]. now exists c, j, r.
      * intros (c' & j' & r & Hc & Hj' & Hr & Hcell). inversion Hc; subst c'.
        rewrite Hj in Hj'. inversion Hj'; subst j'. now exists r.
    + inversion H. split; [intros [] | intros (c & j & r & K & _); discriminate].
  - intros Hc. subst col. simpl in H. now inversion H.
Qed.

(** The years of the sample table. *)
Lemma uniques_sorted_distinct_witness :
  uniques sample (Some "Year") = Ok [VNum 2023; VNum 2024]
  /\ NoDup [VNum 2023; VNum 2024]
  /\ Sorted value_le [VNum 2023; VNum 2024].
Proof.
  assert (E : uniques sample (Some "Year") = Ok [VNum 2023; VNum 2024])
    by reflexivity.
  destruct (uniques_sorted_distinct sample (Some "Year") _ E) as (N & S & _).
  repeat split; assumption.
Defined.

(** ** A matched row and the selections that chose it *)

Lemma keeps_cell (cols : list string) (col : option string) (ph sel : value)
    (r : list cell) :
  keeps cols col ph sel r = true -> sel <> ph ->
  exists c j, col = Some c /\ index_of c cols = Some j /\ cell_at j r = Some sel.
Proof.
  unfold keeps. intros H Hne. rewrite (proj2 (value_eqb_neq _ _) Hne) in H.
  destruct col as [c|]; [|discriminate].
  destruct (index_of c cols) as [j|] eqn:Ej; [|discriminate].
  exists c, j. split; [reflexivity|]. split; [exact Ej|].
  unfold cell_eqb in H.
  destruct (cell_at j r) as [a|]; [|discriminate].
  apply value_eqb_eq in H. now subst.
Qed.

Lemma firstn_1_filter (A : Type) (f : A -> bool) (l rows : list A) :
  rows = firstn 1 (filter f l) -> rows <> [] ->
  exists r, rows = [r] /\ In r l /\ f r = true.
Proof.
  intros H Hne. destruct (filter f l) as [|r t] eqn:E; simpl in H;
    [contradiction|].
  exists r. split; [assumption|]. apply filter_In. rewrite E. now left.
Qed.

Lemma empty_false_rows (d : DataFrame) : empty d = false -> rows d <> [].
Proof.
  unfold empty. intros H K. rewrite K in H. now destruct (columns d).
Qed.

(** The row of a matched slot of a drawn page: a single row of the loaded
    table that passes the global and the slot's filters. *)
Lemma page_matched_row (io : string -> bool) (df : DataFrame) (u : user_input)
    (p : page) (i : nat) (v : slot_view) :
  app io df u = Ok (Page p) ->
  nth_error (sidebar_slots p) i = Some v ->
  empty (row (chosen v)) = false ->
  brand (chosen v) <> CHOOSE
  /\ columns (row (chosen v)) = columns df
  /\ exists r, rows (row (chosen v)) = [r] /\ In r (rows df)
               /\ global_keeps (columns df) (sidebar_global p) r = true
               /\ slot_keeps (columns df) (chosen v) r = true.
Proof.
  intros H Hi He. pose proof (page_slot _ _ _ _ _ _ H Hi) as Hv.
  destruct (app_inv _ _ _ _ H) as (_ & G & _).
  destruct (global_rows _ _ _ G) as [Hc Hr].
  destruct (slot_rows _ _ _ Hv) as [K1 K2].
  assert (Hb : brand (chosen v) <> CHOOSE).
  { intros Eb. rewrite (K1 Eb) in He. discriminate. }
  split; [assumption|]. destruct (K2 Hb) as [R C]. rewrite Hc in R, C.
  pose proof (empty_false_rows _ He) as Hne.
  split; [now apply C|].
  rewrite Hr, filter_filter in R.
  destruct (firstn_1_filter _ _ _ _ R Hne) as (r & Er & Hin & Hf).
  exists r. apply andb_true_iff in Hf. tauto.
Qed.

Lemma get_val_of_row (s : selection) (cols : list string) (r : list cell)
    (c : string) (j : nat) (x : value) :
  empty (row s) = false -> columns (row s) = cols -> rows (row s) = [r] ->
  index_of c cols = Some j -> cell_at j r = Some x ->
  get_val s c = x.
Proof.
  intros He Hc Hr Hj Hx. apply get_val_present; [assumption|].
  unfold iat0. rewrite Hc, Hj, Hr. simpl. now rewrite Hx.
Qed.

(** X4.  The row a slot resolved to agrees with everything that was
    selected: read through [get_val], its Brand cell is the chosen brand,
    its Country, Year and Quarter cells are the slot's selections wherever
    one was made, and its Year, Quarter and Region cells are the global
    selections wherever one was made; the row is one of the loaded table's
    rows. *)
Theorem matched_row_shows_selection (io : string -> bool) (df : DataFrame)
    (u : user_input) (p : page) (i : nat) (v : slot_view) :
  app io df u = Ok (Page p) ->
  nth_error (sidebar_slots p) i = Some v ->
  empty (row (chosen v)) = false ->
  let cols := columns df in
  let g := sidebar_global p in
  let s := chosen v in
  (exists c, col_brand cols = Some c /\ get_val s c = brand s)
  /\ (country s <> CHOOSE ->
      exists c, col_country cols = Some c /\ get_val s c = country s)
  /\ (forall y, year s = Some y -> y <> ANY ->
      exists c, col_year cols = Some c /\ get_val s c = y)
  /\ (forall q, quarter s = Some q -> q <> ANY ->
      exists c, col_quarter cols = Some c /\ get_val s c = q)
  /\ (global_year g <> ALL ->
      exists c, col_year cols = Some c /\ get_val s c = global_year g)
  /\ (global_quarter g <> ALL ->
      exists c, col_quarter cols = Some c /\ get_val s c = global_quarter g)
  /\ (global_region g <> ALL ->
      exists c, col_region cols = Some c /\ get_val s c = global_region g)
  /\ (exists r, rows (row s) = [r] /\ In r (rows df)).
Proof.
  intros H Hi He cols g s.
  destruct (page_matched_row _ _ _ _ _ _ H Hi He) as (Hb & Hc & r & Hr & Hin & Kg & Ks).
  fold s in Hb, Hc, Hr, Ks, He. fold cols in Hc, Kg, Ks. fold g in Kg.
  unfold slot_keeps in Ks. unfold global_keeps in Kg.
  repeat (apply andb_true_iff in Ks; destruct Ks as [Ks ?]).
  repeat (apply andb_true_iff in Kg; destruct Kg as [Kg ?]).
  assert (K : forall col ph sel, keeps cols col ph sel r = true -> sel <> ph ->
                exists c, col = Some c /\ get_val s c = sel).
  { intros col ph sel Hk Hne.
    destruct (keeps_cell _ _ _ _ _ Hk Hne) as (c & j & E & Hj & Hx).
    exists c. split; [assumption|].
    now apply (get_val_of_row s cols r c j). }
  split; [now apply (K _ CHOOSE)|].
  split; [intros Hne; now apply (K _ CHOOSE)|].
  split.
  { intros y Ey Hne. apply (K _ ANY); [|assumption].
    match goal with Hk : keeps cols (col_year cols) ANY _ r = true |- _ =>
      rewrite Ey in Hk; exact Hk end. }
  split.
  { intros q Eq Hne. apply (K _ ANY); [|assumption].
    match goal with Hk : keeps cols (col_quarter cols) ANY _ r = true |- _ =>
      rewrite Eq in Hk; exact Hk end. }
  split; [intros Hne; now apply (K _ ALL)|].
  split; [intros Hne; now apply (K _ ALL)|].
  split; [intros Hne; now apply (K _ ALL)|].
  now exists r.
Qed.

(** Slot 1 of the sample run (USA, Acme): the Brand cell of its row reads
    Acme. *)
Lemma matched_row_shows_selection_witness :
  exists p v,
    app no_images sample input_brand_only = Ok (Page p) /\
    nth_error (sidebar_slots p) 0 = Some v /\
    empty (row (chosen v)) = false /\
    exists c, col_brand (columns sample) = Some c
              /\ get_val (chosen v) c = brand (chosen v).
Proof.
  destruct (app no_images sample input_brand_only) as [[|p]|e] eqn:E;
    try (vm_compute in E; discriminate).
  destruct (nth_error (sidebar_slots p) 0) as [v|] eqn:Ev.
  - assert (He : empty (row (chosen v)) = false).
    { vm_compute in E. inversion E; subst p. vm_compute in Ev.
      inversion Ev; subst v. reflexivity. }
    exists p, v. split; [reflexivity|]. split; [exact Ev|]. split; [exact He|].
    exact (proj1 (matched_row_shows_selection no_images sample input_brand_only
                    p 0 v E Ev He)).
  - vm_compute in E. inversion E; subst p. vm_compute in Ev. discriminate.
Defined.

(** ** The shape of a drawn page *)

Lemma app_main (io : string -> bool) (df : DataFrame) (u : user_input) (p : page) :
  app io df u = Ok (Page p) ->
  let sels := map chosen (sidebar_slots p) in
  (List.length (valid_rows sels) < 2 /\ main p = Warned WARNING)
  \/ (2 <= List.length (valid_rows sels)
      /\ exists hs, map_res (header io (columns df)) sels = Ok hs
                    /\ main p = Compared (mkComparison hs (table_names 0 sels)
                                            (render_rows io (columns df) sels)
                                            (export_df sels))).
Proof.
  unfold app. destruct (empty df); [discriminate|]. intros H.
  bind_inv H. bind_inv H.
  destruct (Nat.ltb (List.length (valid_rows (map chosen x0))) 2) eqn:L.
  - inversion H; subst. simpl. left. apply Nat.ltb_lt in L. auto.
  - bind_inv H. inversion H; subst. simpl. right.
    apply Nat.ltb_ge in L. split; [assumption|]. now exists x1.
Qed.

Lemma map_res_length (A B : Type) (f : A -> res B) (l : list A) (bs : list B) :
  map_res f l = Ok bs -> List.length bs = List.length l.
Proof.
  revert bs. induction l as [|a t IH]; simpl; intros bs H.
  - now inversion H.
  - bind_inv H. bind_inv H. inversion H; subst. simpl. f_equal. now apply IH.
Qed.

Lemma table_names_length (sels : list selection) (i : nat) :
  List.length (table_names i sels) = List.length sels.
Proof.
  revert i. induction sels as [|s t IH]; intros i; simpl; [reflexivity|].
  f_equal. apply IH.
Qed.

Lemma render_cell_unmatched (io : string -> bool) (cols : list string)
    (s : selection) (c : string) :
  empty (row s) = true -> render_cell io cols s c = Write DASH.
Proof.
  intros He. unfold render_cell.
  rewrite (get_val_missing s c (or_introl He)). simpl. now destruct (_ || _).
Qed.

(** X5.  A drawn page has as many slots as the slider allows, between 2
    and 10.  A comparison is drawn only when at least two slots are
    matched; it then has one header, one caption and, in every table row,
    one cell per slot (the unmatched slots included), and one table row per
    parameter, labelled in the order of the parameter list. *)
Theorem page_shape (io : string -> bool) (df : DataFrame) (u : user_input)
    (p : page) :
  app io df u = Ok (Page p) ->
  let n := List.length (sidebar_slots p) in
  n = slider 2 10 (pick_num_comp u)
  /\ 2 <= n <= 10
  /\ forall c, main p = Compared c ->
       2 <= List.length (valid_rows (map chosen (sidebar_slots p)))
       /\ List.length (headers c) = n
       /\ List.length (names c) = n
       /\ map fst (table c) = map snd (ordered_params (columns df))
       /\ forall t, In t (table c) -> List.length (snd t) = n.
Proof.
  intros H n. destruct (app_inv _ _ _ _ H) as (_ & _ & S).
  destruct (competitors_nth _ _ _ _ _ _ S) as [Hlen _]. fold n in Hlen.
  split; [assumption|]. split; [rewrite Hlen; unfold slider; lia|].
  intros c Hc. destruct (app_main _ _ _ _ H) as [[_ W]|[L [hs [Hs M]]]];
    [congruence|].
  rewrite M in Hc. inversion Hc; subst c; clear Hc. simpl.
  split; [assumption|].
  split; [rewrite (map_res_length _ _ _ _ _ Hs); apply length_map|].
  split; [rewrite table_names_length; apply length_map|].
  unfold render_rows. split.
  - rewrite map_map. reflexivity.
  - intros t Ht. apply in_map_iff in Ht. destruct Ht as [q [Eq _]]. subst t.
    simpl. rewrite !length_map. reflexivity.
Qed.

(** The sample run with two matched slots. *)
Lemma page_shape_witness :
  exists p,
    app no_images sample input_brand_only = Ok (Page p) /\
    List.length (sidebar_slots p) = 2 /\
    exists c, main p = Compared c /\ List.length (names c) = 2.
Proof.
  destruct (app no_images sample input_brand_only) as [[|p]|e] eqn:E;
    try (vm_compute in E; discriminate).
  exists p. split; [reflexivity|].
  destruct (page_shape no_images sample input_brand_only p E) as (Hn & _ & K).
  split; [rewrite Hn; reflexivity|].
  destruct (main p) as [msg|c] eqn:M.
  - vm_compute in E. inversion E; subst p. discriminate.
  - exists c. split; [reflexivity|].
    destruct (K c eq_refl) as (_ & _ & N & _). rewrite N, Hn. reflexivity.
Defined.

(** X6.  In a comparison, the column of a slot that has no matched row
    shows "-" in every table row, image rows included, whatever the asset
    store holds. *)
Theorem unmatched_slot_shows_dashes (io : string -> bool) (df : DataFrame)
    (u : user_input) (p : page) (c : comparison) (i : nat) (v : slot_view) :
  app io df u = Ok (Page p) ->
  main p = Compared c ->
  nth_error (sidebar_slots p) i = Some v ->
  empty (row (chosen v)) = true ->
  forall t, In t (table c) -> nth_error (snd t) i = Some (Write DASH).
Proof.
  intros H Hc Hi He t Ht.
  destruct (app_main _ _ _ _ H) as [[_ W]|[_ [hs [_ M]]]]; [congruence|].
  rewrite M in Hc. inversion Hc; subst c; clear Hc. simpl in Ht.
  unfold render_rows in Ht. apply in_map_iff in Ht. destruct Ht as [q [Eq _]].
  subst t. simpl. rewrite nth_error_map, nth_error_map, Hi. simpl.
  now rewrite render_cell_unmatched.
Qed.

(** The third slot of the three-slot run is left unset: its table cells
    are all "-". *)
Lemma unmatched_slot_shows_dashes_witness :
  exists p c v,
    app no_images sample input_three = Ok (Page p) /\
    main p = Compared c /\
    nth_error (sidebar_slots p) 2 = Some v /\
    empty (row (chosen v)) = true /\
    forall t, In t (table c) -> nth_error (snd t) 2 = Some (Write DASH).
Proof.
  destruct (app no_images sample input_three) as [[|p]|e] eqn:E;
    try (vm_compute in E; discriminate).
  destruct (main p) as [msg|c] eqn:M;
    [vm_compute in E; inversion E; subst p; discriminate|].
  destruct (nth_error (sidebar_slots p) 2) as [v|] eqn:Ev;
    [|vm_compute in E; inversion E; subst p; discriminate].
  assert (He : empty (row (chosen v)) = true).
  { vm_compute in E. inversion E; subst p. vm_compute in Ev.
    inversion Ev; subst v. reflexivity. }
  exists p, c, v. repeat (split; [reflexivity || assumption|]).
  exact (unmatched_slot_shows_dashes no_images sample input_three p c 2 v
           E M Ev He).
Defined.

(** ** The layout of the export *)

Lemma row_flat_brand (i : nat) (s : selection) :
  brand s <> CHOOSE ->
  columns (row_flat i s) = fields s /\ rows (row_flat i s) = rows (row s).
Proof.
  intros Hb. unfold row_flat, fields, label. simpl.
  now rewrite (proj2 (value_eqb_neq _ _) Hb).
Qed.

(** The export so far is either untouched or a one-row frame. *)
Lemma export_from_layout (sels : list selection) (i : nat) (acc : DataFrame) :
  (acc = empty_frame \/ (columns acc <> [] /\ exists r, rows acc = [r])) ->
  (forall s, In s sels -> empty (row s) = false ->
             brand s <> CHOOSE /\ exists r, rows (row s) = [r]) ->
  columns (export_from i sels acc)
  = (columns acc ++ flat_map fields (valid_rows sels))%list
  /\ rows (export_from i sels acc)
     = match rows acc, valid_rows sels with
       | [], [] => []
       | _, _ => [(hd [] (rows acc)
                   ++ flat_map (fun s => hd [] (rows (row s))) (valid_rows sels))%list]
       end.
Proof.
  revert i acc. induction sels as [|s rest IH]; intros i acc Hacc Hok.
  - simpl. rewrite app_nil_r. split; [reflexivity|].
    destruct Hacc as [E|[_ [r E]]]; [subst; reflexivity|].
    rewrite E. simpl. now rewrite app_nil_r.
  - assert (Hrest : forall t, In t rest -> empty (row t) = false ->
                      brand t <> CHOOSE /\ exists r, rows (row t) = [r]).
    { intros t Ht. apply Hok. now right. }
    cbn [export_from]. unfold valid_rows. cbn [filter].
    change (filter (fun s0 => negb (empty (row s0))) rest) with (valid_rows rest).
    destruct (empty (row s)) eqn:He; cbn [negb].
    + now apply IH.
    + destruct (Hok s (or_introl eq_refl) He) as [Hb [r Hr]].
      destruct (row_flat_brand i s Hb) as [Cf Rf].
      assert (Hcols : columns (row s) <> []).
      { intros K. unfold empty in He. now rewrite K in He. }
      assert (Hf : fields s <> []).
      { unfold fields. destruct (columns (row s)); [now elim Hcols | discriminate]. }
      destruct Hacc as [E|[Hc [ra Hra]]].
      * subst acc.
        change (concat_cols empty_frame (row_flat i s)) with (row_flat i s).
        destruct (IH (S i) (row_flat i s)) as [IC IR]; [|assumption|].
        { right. rewrite Cf, Rf. split; [assumption | now exists r]. }
        rewrite IC, IR, Cf, Rf. cbn [flat_map]. rewrite !Hr.
        cbn [hd rows columns empty_frame app]. split; reflexivity.
      * assert (Ea : empty acc = false).
        { unfold empty. rewrite Hra. destruct (columns acc); [now elim Hc | reflexivity]. }
        unfold concat_cols. rewrite Ea.
        destruct (IH (S i) (mkDF (columns acc ++ columns (row_flat i s))
                              [(hd [] (rows acc) ++ hd [] (rows (row_flat i s)))%list]))
          as [IC IR]; [|assumption|].
        { right. cbn [columns rows]. split; [|eauto].
          intros K. apply app_eq_nil in K. tauto. }
        rewrite IC, IR. cbn [columns rows flat_map]. rewrite Cf, Rf, !Hr, Hra.
        cbn [hd]. rewrite <- !app_assoc. split; reflexivity.
Qed.

(** X7.  The export of a comparison is one record: its field names are,
    for the matched slots in slot order, the slot's column names each
    behind "<brand> - ", and its single row joins the matched rows in the
    same order; a slot without a matched row contributes no field. *)
Theorem export_layout (io : string -> bool) (df : DataFrame) (u : user_input)
    (p : page) (c : comparison) :
  app io df u = Ok (Page p) ->
  main p = Compared c ->
  let matched := valid_rows (map chosen (sidebar_slots p)) in
  columns (export c) = flat_map fields matched
  /\ rows (export c) = [flat_map (fun s => hd [] (rows (row s))) matched]
  /\ (forall s, In s matched -> columns (row s) = columns df).
Proof.
  intros H Hc matched.
  destruct (app_main _ _ _ _ H) as [[_ W]|[L [hs [_ M]]]]; [congruence|].
  rewrite M in Hc. inversion Hc; subst c; clear Hc. simpl.
  assert (Hok : forall s, In s (map chosen (sidebar_slots p)) ->
                  empty (row s) = false ->
                  brand s <> CHOOSE /\ columns (row s) = columns df
                  /\ exists r, rows (row s) = [r]).
  { intros s Hs He. apply in_map_iff in Hs. destruct Hs as [v [Ev Hin]]. subst s.
    apply In_nth_error in Hin. destruct Hin as [i Hi].
    destruct (page_matched_row _ _ _ _ _ _ H Hi He) as (Hb & Hcol & r & Hr & _).
    split; [assumption|]. split; [assumption | now exists r]. }
  destruct (export_from_layout (map chosen (sidebar_slots p)) 0 empty_frame)
    as [EC ER].
  { now left. }
  { intros s Hs He. destruct (Hok s Hs He) as (? & _ & ?). auto. }
  fold matched in EC, ER, L. unfold export_df. simpl in EC, ER.
  split; [exact EC|]. split.
  - rewrite ER. destruct matched; [simpl in L; lia | reflexivity].
  - intros s Hs. unfold matched, valid_rows in Hs. apply filter_In in Hs.
    destruct Hs as [Hs He]. apply negb_true_iff in He.
    now destruct (Hok s Hs He) as (_ & ? & _).
Qed.

(** The three-slot sample run exports the Acme and the Globex row and
    nothing for the third slot. *)
Lemma export_layout_witness :
  exists p c,
    app no_images sample input_three = Ok (Page p) /\
    main p = Compared c /\
    columns (export c)
    = flat_map fields (valid_rows (map chosen (sidebar_slots p))) /\
    List.length (columns (export c)) = 8.
Proof.
  destruct (app no_images sample input_three) as [[|p]|e] eqn:E;
    try (vm_compute in E; discriminate).
  destruct (main p) as [msg|c] eqn:M;
    [vm_compute in E; inversion E; subst p; discriminate|].
  exists p, c. split; [reflexivity|]. split; [exact M|].
  destruct (export_layout no_images sample input_three p c E M) as (EC & _).
  split; [exact EC|].
  vm_compute in E. inversion E; subst p. inversion M; subst c. reflexivity.
Defined.

(** ** Slots do not influence one another *)

(** X8.  What a slot offers and resolves depends on the table, the global
    picks and the slot's own picks alone: two runs on the same table that
    agree on those show the same view for that slot (and the same global
    part), whatever the other slots pick, however many slots there are and
    whatever the asset store holds. *)
Theorem slot_independent (io io' : string -> bool) (df : DataFrame)
    (u u' : user_input) (p p' : page) (i : nat) (v v' : slot_view) :
  app io df u = Ok (Page p) ->
  app io' df u' = Ok (Page p') ->
  pick_global u = pick_global u' ->
  pick_slot u i = pick_slot u' i ->
  nth_error (sidebar_slots p) i = Some v ->
  nth_error (sidebar_slots p') i = Some v' ->
  sidebar_global p = sidebar_global p' /\ v = v'.
Proof.
  intros H H' Hg Hs Hi Hi'.
  pose proof (page_slot _ _ _ _ _ _ H Hi) as Hv.
  pose proof (page_slot _ _ _ _ _ _ H' Hi') as Hv'.
  destruct (app_inv _ _ _ _ H) as (_ & G & _).
  destruct (app_inv _ _ _ _ H') as (_ & G' & _).
  rewrite Hg in G. rewrite G in G'. inversion G' as [Eg].
  split; [reflexivity|].
  rewrite <- Eg, <- Hs in Hv'. rewrite Hv in Hv'. now inversion Hv'.
Qed.

(** Slot 1 picks USA and Acme in the two-slot and in the three-slot run. *)
Lemma slot_independent_witness :
  exists p p' v v',
    app no_images sample input_brand_only = Ok (Page p) /\
    app (fun _ => true) sample input_three = Ok (Page p') /\
    nth_error (sidebar_slots p) 0 = Some v /\
    nth_error (sidebar_slots p') 0 = Some v' /\
    sidebar_global p = sidebar_global p' /\ v = v'.
Proof.
  destruct (app no_images sample input_brand_only) as [[|p]|e] eqn:E;
    try (vm_compute in E; discriminate).
  destruct (app (fun _ => true) sample input_three) as [[|p']|e] eqn:E';
    try (vm_compute in E'; discriminate).
  destruct (nth_error (sidebar_slots p) 0) as [v|] eqn:Ev;
    [|vm_compute in E; inversion E; subst p; discriminate].
  destruct (nth_error (sidebar_slots p') 0) as [v'|] eqn:Ev';
    [|vm_compute in E'; inversion E'; subst p'; discriminate].
  exists p, p', v, v'. repeat (split; [reflexivity || assumption|]).
  exact (slot_independent no_images (fun _ => true) sample input_brand_only
           input_three p p' 0 v v' E E' eq_refl eq_refl Ev Ev').
Defined.

(** ** Widgets left on their defaults *)

Lemma selectbox_default (ph : value) (o : list value) : selectbox (ph :: o) 0 = ph.
Proof. reflexivity. Qed.

Lemma valid_rows_nil (sels : list selection) :
  (forall s, In s sels -> empty (row s) = true) -> valid_rows sels = [].
Proof.
  induction sels as [|s t IH]; simpl; intros H; [reflexivity|].
  rewrite (H s (or_introl eq_refl)). simpl. apply IH. intros x Hx. apply H. now right.
Qed.

(** X9.  Widgets left on their first option do nothing: with the three
    global selectors on "(all)" the slots work on the whole loaded table; a
    slot whose Brand selector rests on "(choose)" has no row; and when every
    slot's Brand selector rests there, the page is the warning. *)
Theorem defaults_select_nothing (io : string -> bool) (df : DataFrame)
    (u : user_input) (p : page) :
  app io df u = Ok (Page p) ->
  (pick_global_year (pick_global u) = 0 ->
   pick_global_quarter (pick_global u) = 0 ->
   pick_global_region (pick_global u) = 0 ->
   narrowed (sidebar_global p) = df)
  /\ (forall i v, nth_error (sidebar_slots p) i = Some v ->
                  pick_brand (pick_slot u i) = 0 ->
                  brand (chosen v) = CHOOSE /\ row (chosen v) = empty_frame)
  /\ ((forall i, pick_brand (pick_slot u i) = 0) -> main p = Warned WARNING).
Proof.
  intros H. destruct (app_inv _ _ _ _ H) as (_ & G & S).
  assert (K : forall i v, nth_error (sidebar_slots p) i = Some v ->
                pick_brand (pick_slot u i) = 0 ->
                brand (chosen v) = CHOOSE /\ row (chosen v) = empty_frame).
  { intros i v Hi Hp. pose proof (page_slot _ _ _ _ _ _ H Hi) as Hv.
    destruct (slot_rows _ _ _ Hv) as [K1 _].
    apply competitor_inv in Hv.
    destruct Hv as (cs & d1 & bs & d2 & d3 & Hv).
    destruct Hv as (_ & _ & _ & _ & _ & _ & Eb & _).
    rewrite Hp, selectbox_default in Eb. auto. }
  split; [|split; [exact K|]].
  - intros Py Pq Pr. apply global_filters_inv in G. simpl in G.
    destruct G as (y0 & q0 & r0 & c0 & df1 & q1 & r1 & c1 & df2 & r2 & c2 & G).
    destruct G as (_ & _ & _ & _ & _ & Ey & N1 & _ & _ & _ & _ & Eq & N2
                   & _ & _ & _ & Er & N3 & _).
    rewrite Py, selectbox_default in Ey. rewrite Ey, narrow_placeholder in N1.
    inversion N1; subst df1.
    rewrite Pq, selectbox_default in Eq. rewrite Eq, narrow_placeholder in N2.
    inversion N2; subst df2.
    rewrite Pr, selectbox_default in Er. rewrite Er, narrow_placeholder in N3.
    now inversion N3.
  - intros Hall. destruct (app_main _ _ _ _ H) as [[_ W]|[L _]]; [assumption|].
    rewrite valid_rows_nil in L; [simpl in L; lia|].
    intros s Hs. apply in_map_iff in Hs. destruct Hs as [v [Ev Hin]]. subst s.
    apply In_nth_error in Hin. destruct Hin as [i Hi].
    destruct (K i v Hi (Hall i)) as [_ R]. now rewrite R.
Qed.

(** The run with every widget on its default. *)
Lemma defaults_select_nothing_witness :
  exists p,
    app no_images sample input_defaults = Ok (Page p) /\
    narrowed (sidebar_global p) = sample /\
    main p = Warned WARNING.
Proof.
  destruct (app no_images sample input_defaults) as [[|p]|e] eqn:E;
    try (vm_compute in E; discriminate).
  exists p. split; [reflexivity|].
  destruct (defaults_select_nothing no_images sample input_defaults p E)
    as (A & _ & C).
  split; [now apply A | apply C; intros i; reflexivity].
Defined.

(** ** Loading *)

(** X10.  The table is read from the Excel file when that succeeds, from
    the CSV file only when the Excel read fails, and when both fail the
    script shows the error naming the two files and stops with nothing
    drawn; a file that loads as an empty table also stops the script, with
    no error shown. *)
Theorem script_loading (io : string -> bool) (u : user_input) :
  (forall df csv, script io (Some df) csv u = (None, app io df u))
  /\ (forall df, script io None (inl df) u = (None, app io df u))
  /\ (forall e, exists msg,
        script io None (inr e) u = (Some msg, Ok NoData)
        /\ msg = "Could not load data. Make sure '" ++ PATH_XLSX ++ "' or '"
                 ++ PATH_CSV ++ "' exists. Error: " ++ e)
  /\ (forall xl csv df, load_data xl csv = (df, None) -> empty df = true ->
        script io xl csv u = (None, Ok NoData))
  /\ (forall xl csv msg p, script io xl csv u <> (Some msg, Ok (Page p))).
Proof.
  split; [reflexivity|]. split; [reflexivity|].
  split; [intros e; eexists; split; reflexivity|].
  split.
  - intros xl csv df Hl He. unfold script. rewrite Hl. unfold app. now rewrite He.
  - intros xl csv msg p. unfold script, load_data.
    destruct xl as [df|]; [intros K; discriminate|].
    destruct csv as [df|e]; intros K; [discriminate|].
    inversion K.
Qed.

(** ** The order of the filters *)

Lemma narrow_eq (d d' : DataFrame) (col : option string) (ph sel : value) :
  narrow d col ph sel = Ok d' ->
  d' = mkDF (columns d) (filter (keeps (columns d) col ph sel) (rows d)).
Proof.
  intros H. destruct (narrow_keeps _ _ _ _ _ H) as [Hc Hr].
  destruct d' as [c r]. simpl in *. now subst.
Qed.

Lemma filter_comm (A : Type) (f g : A -> bool) (l : list A) :
  filter f (filter g l) = filter g (filter f l).
Proof.
  rewrite !filter_filter. apply filter_ext. intros a. apply andb_comm.
Qed.

Lemma filter_idem (A : Type) (f : A -> bool) (l : list A) :
  filter f (filter f l) = filter f l.
Proof.
  rewrite filter_filter. apply filter_ext. intros a. now destruct (f a).
Qed.

Lemma frame_eq (a b : DataFrame) :
  columns a = columns b -> rows a = rows b -> a = b.
Proof. destruct a, b. simpl. intros; now subst. Qed.

Lemma narrow_again (d d1 : DataFrame) (col : option string) (ph sel : value) :
  narrow d col ph sel = Ok d1 -> narrow d1 col ph sel = Ok d1.
Proof.
  intros N1. destruct (narrow_keeps _ _ _ _ _ N1) as [C1 R1].
  destruct (narrow_same_columns d d1 d1 col ph sel N1 C1) as [e N].
  rewrite N. f_equal. destruct (narrow_keeps _ _ _ _ _ N) as [Ce Re].
  apply frame_eq; [assumption|].
  rewrite Re, C1, R1. apply filter_idem.
Qed.

(** X11.  The cascade's steps commute and repeat harmlessly: narrowing by
    one selection and then by another gives the same table as the other
    order (which cannot fail if this order did not), and narrowing again by
    a selection already applied changes nothing. *)
Theorem narrow_commutes (d d1 d12 : DataFrame) (c1 c2 : option string)
    (p1 s1 p2 s2 : value) :
  narrow d c1 p1 s1 = Ok d1 ->
  narrow d1 c2 p2 s2 = Ok d12 ->
  (exists d2, narrow d c2 p2 s2 = Ok d2 /\ narrow d2 c1 p1 s1 = Ok d12)
  /\ narrow d1 c1 p1 s1 = Ok d1
  /\ narrow d12 c2 p2 s2 = Ok d12.
Proof.
  intros N1 N12.
  destruct (narrow_keeps _ _ _ _ _ N1) as [C1 _].
  destruct (narrow_keeps _ _ _ _ _ N12) as [C12 _].
  pose proof (narrow_eq _ _ _ _ _ N1) as E1.
  pose proof (narrow_eq _ _ _ _ _ N12) as E12.
  split; [|split].
  - destruct (narrow_same_columns d1 d12 d c2 p2 s2 N12 (eq_sym C1)) as [d2 N2].
    exists d2. split; [assumption|].
    destruct (narrow_keeps _ _ _ _ _ N2) as [C2 _].
    destruct (narrow_same_columns d d1 d2 c1 p1 s1 N1 C2) as [d21 N21].
    rewrite N21. f_equal.
    rewrite (narrow_eq _ _ _ _ _ N21), (narrow_eq _ _ _ _ _ N2), E12, E1.
    simpl. f_equal. apply filter_comm.
  - now apply (narrow_again d d1).
  - now apply (narrow_again d1 d12).
Qed.

(** Narrowing the sample to USA and then to the year 2024, or the other
    way round. *)
Lemma narrow_commutes_witness :
  exists d1 d12 d2,
    narrow sample (Some "Country") CHOOSE (VStr "USA") = Ok d1 /\
    narrow d1 (Some "Year") ANY (VNum 2024) = Ok d12 /\
    narrow sample (Some "Year") ANY (VNum 2024) = Ok d2 /\
    narrow d2 (Some "Country") CHOOSE (VStr "USA") = Ok d12.
Proof.
  destruct (narrow sample (Some "Country") CHOOSE (VStr "USA")) as [d1|e] eqn:N1;
    [|vm_compute in N1; discriminate].
  destruct (narrow d1 (Some "Year") ANY (VNum 2024)) as [d12|e] eqn:N12;
    [|vm_compute in N1; inversion N1; subst d1; vm_compute in N12; discriminate].
  destruct (narrow_commutes sample d1 d12 (Some "Country") (Some "Year")
              CHOOSE (VStr "USA") ANY (VNum 2024) N1 N12) as [[d2 [N2 N21]] _].
  exists d1, d12, d2. repeat (split; [reflexivity || assumption|]). exact N21.
Defined.

(** ** Selections come from the option lists *)

(** X12.  Every selection shown on a drawn page is one of the options its
    widget offered; a slot has a Year (Quarter) selection exactly when the
    table has a Year (Quarter) column; and a chosen Country or Brand is a
    value that column really holds in the globally narrowed table. *)
Theorem selections_are_offered (io : string -> bool) (df : DataFrame)
    (u : user_input) (p : page) (i : nat) (v : slot_view) :
  app io df u = Ok (Page p) ->
  nth_error (sidebar_slots p) i = Some v ->
  let cols := columns df in
  let g := sidebar_global p in
  let s := chosen v in
  In (global_year g) (year_options g)
  /\ In (global_quarter g) (quarter_options g)
  /\ In (global_region g) (region_options g)
  /\ In (country s) (country_opts v)
  /\ In (brand s) (brand_opts v)
  /\ match year_opts v, year s with
     | Some yo, Some y => In y yo /\ col_year cols <> None
     | None, None => col_year cols = None
     | _, _ => False
     end
  /\ match q_opts v, quarter s with
     | Some qo, Some q => In q qo /\ col_quarter cols <> None
     | None, None => col_quarter cols = None
     | _, _ => False
     end
  /\ (country s <> CHOOSE ->
      In (country s) (available (narrowed g) (col_country cols)))
  /\ (brand s <> CHOOSE ->
      In (brand s) (available (narrowed g) (col_brand cols))).
Proof.
  intros H Hi cols g s. pose proof (page_slot _ _ _ _ _ _ H Hi) as Hv.
  destruct (app_inv _ _ _ _ H) as (_ & G & _).
  destruct (global_rows _ _ _ G) as [Hc _]. fold g in Hv, Hc. fold cols in Hc.
  rewrite Hc in Hv. apply competitor_inv in Hv. fold s in Hv.
  destruct Hv as (cs & d1 & bs & d2 & d3 & Hv).
  destruct Hv as (Ucs & Ocs & Ec & N1 & Ubs & Obs & Eb & Y & _ & Q & _ & _).
  apply global_filters_inv in G. fold cols g in G. simpl in G.
  destruct G as (y0 & q0 & r0 & c0 & df1 & q1 & r1 & c1 & df2 & r2 & c2 & G).
  destruct G as (_ & _ & _ & _ & Oy & Ey & _ & _ & _ & _ & Oq & Eq & _
                 & _ & _ & Or & Er & _ & _).
  split; [rewrite Oy, Ey; apply selectbox_In|].
  split; [rewrite Oq, Eq; apply selectbox_In|].
  split; [rewrite Or, Er; apply selectbox_In|].
  split; [rewrite Ocs, Ec; apply selectbox_In|].
  split; [rewrite Obs, Eb; apply selectbox_In|].
  split.
  { destruct (col_year cols) as [c|].
    - destruct Y as (ys & _ & Oys & Eys). rewrite Oys, Eys.
      split; [apply selectbox_In | discriminate].
    - destruct Y as [Oys Eys]. now rewrite Oys, Eys. }
  split.
  { destruct (col_quarter cols) as [c|].
    - destruct Q as (qs & _ & Oqs & Eqs). rewrite Oqs, Eqs.
      split; [apply selectbox_In | discriminate].
    - destruct Q as [Oqs Eqs]. now rewrite Oqs, Eqs. }
  split.
  - intros Hne. apply (uniques_available _ _ _ Ucs).
    pose proof (selectbox_In CHOOSE cs (pick_country (pick_slot u i))) as K.
    rewrite <- Ec in K. destruct K as [K|K]; [now elim Hne | assumption].
  - intros Hne. destruct (narrow_available _ _ _ _ _ N1) as (_ & _ & S1).
    apply (S1 (col_brand cols)). apply (uniques_available _ _ _ Ubs).
    pose proof (selectbox_In CHOOSE bs (pick_brand (pick_slot u i))) as K.
    rewrite <- Eb in K. destruct K as [K|K]; [now elim Hne | assumption].
Qed.

(** Slot 1 of the sample run. *)
Lemma selections_are_offered_witness :
  exists p v,
    app no_images sample input_brand_only = Ok (Page p) /\
    nth_error (sidebar_slots p) 0 = Some v /\
    In (country (chosen v)) (country_opts v) /\
    In (brand (chosen v)) (brand_opts v).
Proof.
  destruct (app no_images sample input_brand_only) as [[|p]|e] eqn:E;
    try (vm_compute in E; discriminate).
  destruct (nth_error (sidebar_slots p) 0) as [v|] eqn:Ev;
    [|vm_compute in E; inversion E; subst p; discriminate].
  exists p, v. split; [reflexivity|]. split; [exact Ev|].
  destruct (selections_are_offered no_images sample input_brand_only p 0 v E Ev)
    as (_ & _ & _ & A & B & _).
  split; assumption.
Defined.

(** ** Every table cell reads the row *)

Lemma params_are_columns (cols : list string) (c : string) :
  In c (map fst (ordered_params cols)) -> In c cols.
Proof.
  rewrite ordered_params_columns, in_app_iff. intros [H|H].
  - apply In_resolved in H. destruct H as [r [_ E]].
    now apply (get_col_In_cols _ (variants r)).
  - apply In_remaining_cols in H. tauto.
Qed.

(** X13.  Every parameter of the comparison names a column of the table,
    so for a matched slot each table row reads a cell of the slot's row:
    the value shown is that cell, and "-" only where the cell is missing. *)
Theorem table_reads_cells (io : string -> bool) (df : DataFrame)
    (u : user_input) (p : page) (i : nat) (v : slot_view) (c : string) :
  app io df u = Ok (Page p) ->
  nth_error (sidebar_slots p) i = Some v ->
  empty (row (chosen v)) = false ->
  In c (map fst (ordered_params (columns df))) ->
  exists j r,
    index_of c (columns df) = Some j
    /\ rows (row (chosen v)) = [r]
    /\ In r (rows df)
    /\ get_val (chosen v) c = match cell_at j r with
                              | Some x => x
                              | None => DASH
                              end.
Proof.
  intros H Hi He Hc.
  destruct (page_matched_row _ _ _ _ _ _ H Hi He) as (_ & Hcol & r & Hr & Hin & _).
  apply params_are_columns in Hc. destruct (index_of_In _ _ Hc) as [j Hj].
  exists j, r. repeat (split; [assumption|]).
  destruct (cell_at j r) as [x|] eqn:Ex.
  - now apply (get_val_of_row (chosen v) (columns df) r c j).
  - apply get_val_missing. right. right. unfold iat0.
    now rewrite Hcol, Hj, Hr; simpl; rewrite Ex.
Qed.

(** The Price cell of slot 1 of the sample run. *)
Lemma table_reads_cells_witness :
  exists p v j r,
    app no_images sample input_brand_only = Ok (Page p) /\
    nth_error (sidebar_slots p) 0 = Some v /\
    index_of "Price" (columns sample) = Some j /\
    rows (row (chosen v)) = [r] /\
    In r (rows sample) /\
    get_val (chosen v) "Price" = match cell_at j r with
                                 | Some x => x
                                 | None => DASH
                                 end.
Proof.
  destruct (app no_images sample input_brand_only) as [[|p]|e] eqn:E;
    try (vm_compute in E; discriminate).
  destruct (nth_error (sidebar_slots p) 0) as [v|] eqn:Ev;
    [|vm_compute in E; inversion E; subst p; discriminate].
  assert (He : empty (row (chosen v)) = false).
  { vm_compute in E. inversion E; subst p. vm_compute in Ev.
    inversion Ev; subst v. reflexivity. }
  assert (Hc : In "Price" (map fst (ordered_params (columns sample)))).
  { vm_compute. tauto. }
  destruct (table_reads_cells no_images sample input_brand_only p 0 v "Price"
              E Ev He Hc) as (j & r & K).
  exists p, v, j, r. split; [reflexivity|]. split; [exact Ev|]. exact K.
Defined.

(** ** Captions *)

Lemma table_names_nth (sels : list selection) (k i : nat) (s : selection) :
  nth_error sels i = Some s ->
  nth_error (table_names k sels) i
  = Some (if negb (value_eqb (brand s) CHOOSE) then show_value (brand s)
          else "Competitor " ++ show_nat (k + i + 1)).
Proof.
  revert k i. induction sels as [|x t IH]; intros k i H; [now destruct i|].
  destruct i as [|i]; cbn [nth_error table_names] in *.
  - inversion H; subst. now rewrite Nat.add_0_r.
  - rewrite (IH (S k) i H).
    replace (S k + i + 1) with (k + S i + 1) by lia. reflexivity.
Qed.

(** X14.  In a comparison the caption above a slot's column is the
    slot's brand when one is chosen, and otherwise "Competitor N" with N
    the slot's position counted from 1. *)
Theorem captions_number_from_one (io : string -> bool) (df : DataFrame)
    (u : user_input) (p : page) (c : comparison) (i : nat) (v : slot_view) :
  app io df u = Ok (Page p) ->
  main p = Compared c ->
  nth_error (sidebar_slots p) i = Some v ->
  (brand (chosen v) <> CHOOSE ->
   nth_error (names c) i = Some (show_value (brand (chosen v))))
  /\ (brand (chosen v) = CHOOSE ->
      nth_error (names c) i = Some ("Competitor " ++ show_nat (i + 1))).
Proof.
  intros H Hc Hi.
  destruct (app_main _ _ _ _ H) as [[_ W]|[_ [hs [_ M]]]]; [congruence|].
  rewrite M in Hc. inversion Hc; subst c; clear Hc. simpl.
  assert (Hs : nth_error (map chosen (sidebar_slots p)) i = Some (chosen v)).
  { now rewrite nth_error_map, Hi. }
  rewrite (table_names_nth _ 0 i _ Hs). simpl. split.
  - intros Hb. now rewrite (proj2 (value_eqb_neq _ _) Hb).
  - intros Hb. now rewrite Hb.
Qed.

(** The third, unset slot of the three-slot run is captioned
    "Competitor 3". *)
Lemma captions_number_from_one_witness :
  exists p c v,
    app no_images sample input_three = Ok (Page p) /\
    main p = Compared c /\
    nth_error (sidebar_slots p) 2 = Some v /\
    nth_error (names c) 2 = Some "Competitor 3".
Proof.
  destruct (app no_images sample input_three) as [[|p]|e] eqn:E;
    try (vm_compute in E; discriminate).
  destruct (main p) as [msg|c] eqn:M;
    [vm_compute in E; inversion E; subst p; discriminate|].
  destruct (nth_error (sidebar_slots p) 2) as [v|] eqn:Ev;
    [|vm_compute in E; inversion E; subst p; discriminate].
  exists p, c, v. split; [reflexivity|]. split; [exact M|]. split; [exact Ev|].
  destruct (captions_number_from_one no_images sample input_three p c 2 v E M Ev)
    as [_ K].
  apply K. vm_compute in E. inversion E; subst p. vm_compute in Ev.
  inversion Ev; subst v. reflexivity.
Defined.

(** ** Images *)






